(** * Shallow embedding of steampipe-plugin-aws table functions

    The development embeds the list, get and hydrate functions of five
    tables (aws_api_gatewayv2_route, aws_cloudtrail_trail_event,
    aws_lambda_alias, aws_cloudfront_origin_access_identity,
    aws_rds_db_instance_metric_cpu_utilization) and checks the runtime
    contract of the specification against them.

    Go values are embedded as follows: a pointer is an [option], a
    [(interface{}, error)] result is an [outcome], fixed-width integers are
    [Z] with the wrap-around written out, maps are [gmap], and the effects of
    a function (rate-limiter waits, provider calls, rows handed to the
    engine) are recorded in an append-only trace of events. *)

From Stdlib Require Import ZArith Lia Ascii String List.
From stdpp Require Import gmap strings list fin_maps pretty.

Open Scope Z_scope.

(** ** Go runtime values *)

Module Go.

(** An [error] value.  [awserr.Error] (and the smithy API error of SDK v2)
    carries a code; any other error only a message. *)
Inductive error : Type :=
  | AwsError (code message : string)
  | PlainError (message : string).

(** The result of a function returning [(interface{}, error)]: every
    return statement of the embedded functions is [(v, nil)] or
    [(nil, err)]; a nil-pointer dereference or failed type assertion
    unwinds as [Panic]. *)
Inductive outcome (A : Type) : Type :=
  | Return (v : A)
  | Fail (e : error)
  | Panic.
Arguments Return {A} v.
Arguments Fail {A} e.
Arguments Panic {A}.

(** [int32(x)] for an [int64] x: the low 32 bits, two's complement. *)
Definition int32 (x : Z) : Z := (x + 2 ^ 31) mod 2 ^ 32 - 2 ^ 31.

(** Arithmetic on [int64] wraps modulo 2^64. *)
Definition int64 (x : Z) : Z := (x + 2 ^ 63) mod 2 ^ 64 - 2 ^ 63.

Definition is_int32 (x : Z) : Prop := - 2 ^ 31 <= x < 2 ^ 31.

Definition quote : string := String "034"%char EmptyString.

End Go.

(** ** The part of the plugin SDK and of the AWS SDK the tables call *)

Module Sdk.
Import Go.

(** [proto.QualValue]: a oneof; the getters are nil-safe and return the
    zero value for any other variant. *)
Inductive QualValue : Type :=
  | StringValue (s : string)
  | Int64Value (n : Z)
  | BoolValue (b : bool)
  | TimestampValue (seconds : Z)
  | JsonbValue (s : string).

(** [m[key].GetStringValue()] on a [map[string]*proto.QualValue]: a
    missing key gives a nil pointer, on which the getter returns the
    empty string. *)
Definition GetStringValue (v : option QualValue) : string :=
  match v with
  | Some (StringValue s) => s
  | _ => EmptyString
  end.

(** [v.GetTimestampValue().GetSeconds()]. *)
Definition GetTimestampSeconds (v : option QualValue) : Z :=
  match v with
  | Some (TimestampValue s) => s
  | _ => 0
  end.

(** What one provider call answers: a page with an optional continuation
    token, or an error. *)
Inductive response (Item : Type) : Type :=
  | PageOut (items : list Item) (NextToken : option string)
  | CallError (e : error).
Arguments PageOut {Item} items NextToken.
Arguments CallError {Item} e.

(** The behaviour of the provider along one pagination: the finite
    unfolding of its answers to the consecutive calls of a scan.  Each
    call consumes one node. *)
Inductive pages (Item : Type) : Type :=
  | LastPage (items : list Item)
  | MorePages (items : list Item) (token : string) (rest : pages Item)
  | CallFails (e : error).
Arguments LastPage {Item} items.
Arguments MorePages {Item} items token rest.
Arguments CallFails {Item} e.

Definition answer {Item} (p : pages Item) : response Item :=
  match p with
  | LastPage items => PageOut items None
  | MorePages items token _ => PageOut items (Some token)
  | CallFails e => CallError e
  end.

(** The observable effects of a list function, in program order. *)
Inductive event (Req Item Row : Type) : Type :=
  | WaitForListRateLimit
  | ProviderCall (req : Req) (resp : response Item)
  | StreamListItem (row : Row).
Arguments WaitForListRateLimit {Req Item Row}.
Arguments ProviderCall {Req Item Row} req resp.
Arguments StreamListItem {Req Item Row} row.

Section Traces.
Context {Req Item Row : Type}.
Local Abbreviation trace := (list (event Req Item Row)).

Definition is_stream (ev : event Req Item Row) : bool :=
  match ev with StreamListItem _ => true | _ => false end.

Definition is_call (ev : event Req Item Row) : bool :=
  match ev with ProviderCall _ _ => true | _ => false end.

(** Number of rows handed to the engine. *)
Fixpoint rows_streamed (tr : trace) : Z :=
  match tr with
  | [] => 0
  | ev :: tr' => (if is_stream ev then 1 else 0) + rows_streamed tr'
  end.

(** The rows handed to the engine, in order. *)
Fixpoint streamed (tr : trace) : list Row :=
  match tr with
  | [] => []
  | StreamListItem row :: tr' => row :: streamed tr'
  | _ :: tr' => streamed tr'
  end.

(** The provider requests issued, in order. *)
Fixpoint requests (tr : trace) : list Req :=
  match tr with
  | [] => []
  | ProviderCall req _ :: tr' => req :: requests tr'
  | _ :: tr' => requests tr'
  end.

(** The items of the pages the provider answered, in order. *)
Fixpoint fetched (tr : trace) : list Item :=
  match tr with
  | [] => []
  | ProviderCall _ (PageOut items _) :: tr' => (items ++ fetched tr')%list
  | _ :: tr' => fetched tr'
  end.

(** Modelled from the spec: the row budget of the Paginator, which
    [d.RowsRemaining] reads.  The SDK function is not part of this
    repository; the budget starts at the row limit and is decremented
    as items stream (spec 4.2), and without a limit it never reaches
    zero. *)
Definition budget (Limit : option Z) (tr : trace) : Z :=
  match Limit with
  | None => 2 ^ 31 - 1
  | Some l => Z.max 0 (l - rows_streamed tr)
  end.

(** The events [new] a scan adds to the history [tr0] honour the row
    limit [L] when no more than [L] rows are streamed in all and every
    provider call of [new] is issued while fewer than [L] rows are
    streamed. *)
Definition honours_limit (L : Z) (tr0 new : trace) : Prop :=
  rows_streamed (tr0 ++ new) <= L /\
  forall pre post req resp,
    new = (pre ++ ProviderCall req resp :: post)%list ->
    rows_streamed (tr0 ++ pre) < L.

(** Every provider call is directly preceded by a rate-limiter wait. *)
Definition waits_before_calls (tr : trace) : Prop :=
  forall pre post req resp,
    tr = (pre ++ ProviderCall req resp :: post)%list ->
    exists pre', pre = (pre' ++ [WaitForListRateLimit])%list.

End Traces.

(** How a service-client constructor resolves whose caller also tests
    the client for nil: [(nil, err)], [(nil, nil)] for a region that does
    not support the service, or a client. *)
Inductive client_resolution (C : Type) : Type :=
  | ClientError (e : error)
  | ClientNil
  | Client (c : C).
Arguments ClientError {C} e.
Arguments ClientNil {C}.
Arguments Client {C} c.

(** How a constructor resolves whose caller tests only the error:
    [(nil, err)] or a service handle. *)
Inductive service_resolution (C : Type) : Type :=
  | ServiceError (e : error)
  | Service (c : C).
Arguments ServiceError {C} e.
Arguments Service {C} c.

(** Whether the loop over the items of a page ran to its end or returned
    from the enclosing function. *)
Inductive flow (A : Type) : Type :=
  | Continue
  | Exit (o : outcome A).
Arguments Continue {A}.
Arguments Exit {A} o.

(** The page-size clamp both v5 list functions inline: the ceiling,
    lowered to the caller's limit (read as [int32]) but never below 1. *)
Definition maxLimit (ceiling : Z) (Limit : option Z) : Z :=
  match Limit with
  | None => ceiling
  | Some l =>
    let limit := int32 l in
    if limit <? ceiling then
      if limit <? 1 then 1 else limit
    else ceiling
  end.

End Sdk.

(** ** Table aws_api_gatewayv2_route *)

Module APIGatewayV2Route.
Import Go Sdk.

(** [types.Api]: the parent item; only [ApiId] is read. *)
Record Api : Type := { ApiId : option string }.

(** [types.Route], the item of a GetRoutes page. *)
Record Route : Type := {
  Route_ApiGatewayManaged : option bool;
  Route_ApiKeyRequired : option bool;
  Route_AuthorizationScopes : list string;
  Route_AuthorizationType : string;
  Route_AuthorizerId : option string;
  Route_ModelSelectionExpression : option string;
  Route_OperationName : option string;
  Route_RequestModels : gmap string string;
  Route_RequestParameters : gmap string bool;
  Route_RouteId : option string;
  Route_RouteKey : option string;
  Route_RouteResponseSelectionExpression : option string;
  Route_Target : option string
}.

(** [apigatewayv2.GetRouteOutput]. *)
Record GetRouteOutput : Type := {
  ApiGatewayManaged : option bool;
  ApiKeyRequired : option bool;
  AuthorizationScopes : list string;
  AuthorizationType : string;
  AuthorizerId : option string;
  ModelSelectionExpression : option string;
  OperationName : option string;
  RequestModels : gmap string string;
  RequestParameters : gmap string bool;
  RouteId : option string;
  RouteKey : option string;
  RouteResponseSelectionExpression : option string;
  Target : option string
}.

(** [RouteInfo]: the row item, an API id and an embedded pointer. *)
Record RouteInfo : Type := {
  RouteInfo_ApiId : string;
  RouteInfo_GetRouteOutput : option GetRouteOutput
}.

(** [apigatewayv2.GetRoutesInput]. *)
Record GetRoutesInput : Type := {
  GetRoutesInput_ApiId : option string;
  MaxResults : option string;
  NextToken : option string
}.

(** [apigatewayv2.GetRouteInput]. *)
Record GetRouteInput : Type := {
  GetRouteInput_ApiId : option string;
  GetRouteInput_RouteId : option string
}.

(** The List and Get configurations of the table, with their tags. *)
Definition List_Tags : list (string * string) :=
  [("service", "apigateway"); ("action", "GetRoutes")]%string.

Definition Get_Tags : list (string * string) :=
  [("service", "apigateway"); ("action", "GetRoute")]%string.

Definition Get_KeyColumns : list string := ["route_id"; "api_id"]%string.

Abbreviation trace := (list (event GetRoutesInput Route RouteInfo)).

(** The ceiling [int32(500)] of the list function. *)
Definition ceiling : Z := 500.

(** The [GetRouteOutput] the list function builds from a page item. *)
Definition routeOp (route : Route) : GetRouteOutput :=
  {| ApiGatewayManaged := Route_ApiGatewayManaged route;
     ApiKeyRequired := Route_ApiKeyRequired route;
     AuthorizationScopes := Route_AuthorizationScopes route;
     AuthorizationType := Route_AuthorizationType route;
     AuthorizerId := Route_AuthorizerId route;
     ModelSelectionExpression := Route_ModelSelectionExpression route;
     OperationName := Route_OperationName route;
     RequestModels := Route_RequestModels route;
     RequestParameters := Route_RequestParameters route;
     RouteId := Route_RouteId route;
     RouteKey := Route_RouteKey route;
     RouteResponseSelectionExpression :=
       Route_RouteResponseSelectionExpression route;
     Target := Route_Target route |}.

Section ListFunction.

(** [d.RowsRemaining(ctx)], an SDK function: it is taken as a parameter
    that may look at everything the scan did so far, which also covers a
    cancelled context. *)
Variable RowsRemaining : trace -> Z.

(** [for _, route := range result.Items]: stream the row, dereferencing
    [api.ApiId], then leave the function when no row remains. *)
Fixpoint streamRoutes (api : Api) (Items : list Route) (tr : trace)
  : trace * flow (option RouteInfo) :=
  match Items with
  | [] => (tr, Continue)
  | route :: Items' =>
      match ApiId api with
      | None => (tr, Exit Panic)
      | Some id =>
          let tr' :=
            tr ++ [StreamListItem
                     {| RouteInfo_ApiId := id;
                        RouteInfo_GetRouteOutput := Some (routeOp route) |}] in
          if RowsRemaining tr' =? 0 then (tr', Exit (Return None))
          else streamRoutes api Items' tr'
      end
  end.

(** [for pagesLeft]: wait, call GetRoutes with the current [params],
    stream the page, and go on while the page carries a token. *)
Fixpoint getRoutesPages (api : Api) (maxLimit : Z) (token : option string)
    (svc : pages Route) (tr : trace) : trace * outcome (option RouteInfo) :=
  let params :=
    {| GetRoutesInput_ApiId := ApiId api;
       MaxResults := Some (pretty maxLimit);
       NextToken := token |} in
  let tr1 := tr ++ [WaitForListRateLimit; ProviderCall params (answer svc)] in
  match svc with
  | CallFails err => (tr1, Fail err)
  | LastPage Items =>
      match streamRoutes api Items tr1 with
      | (tr2, Exit o) => (tr2, o)
      | (tr2, Continue) => (tr2, Return None)
      end
  | MorePages Items next rest =>
      match streamRoutes api Items tr1 with
      | (tr2, Exit o) => (tr2, o)
      | (tr2, Continue) => getRoutesPages api maxLimit (Some next) rest tr2
      end
  end.

(** [listAPIGatewayV2Routes]: [Limit] is [d.QueryContext.Limit], [api] is
    [h.Item], [client] is what [APIGatewayV2Client(ctx, d)] resolves to and
    [tr] what the scan did before this call. *)
Definition listAPIGatewayV2Routes (Limit : option Z) (api : Api)
    (client : client_resolution (pages Route)) (tr : trace)
  : trace * outcome (option RouteInfo) :=
  match client with
  | ClientError err => (tr, Fail err)
  | ClientNil => (tr, Return None)
  | Client svc => getRoutesPages api (maxLimit ceiling Limit) None svc tr
  end.

End ListFunction.

(** What a GetRoute call answers: [(item, err)]. *)
Inductive GetRouteResult : Type :=
| GetRouteItem (item : option GetRouteOutput)
| GetRouteError (err : error).

(** The provider calls a Get hydrate issued. *)
Abbreviation get_trace := (list (GetRouteInput * GetRouteResult)).

(** [getAPIGatewayV2Route]: [EqualsQuals] is [d.EqualsQuals]. *)
Definition getAPIGatewayV2Route (EqualsQuals : gmap string QualValue)
    (client : client_resolution (GetRouteInput -> GetRouteResult))
    (tr : get_trace) : get_trace * outcome (option RouteInfo) :=
  match client with
  | ClientError err => (tr, Fail err)
  | ClientNil => (tr, Return None)
  | Client svc =>
      let api := GetStringValue (EqualsQuals !! "api_id"%string) in
      let routeId := GetStringValue (EqualsQuals !! "route_id"%string) in
      let params :=
        {| GetRouteInput_ApiId := Some api;
           GetRouteInput_RouteId := Some routeId |} in
      let tr' := tr ++ [(params, svc params)] in
      match svc params with
      | GetRouteError err => (tr', Fail err)
      | GetRouteItem (Some item) =>
          (tr', Return (Some {| RouteInfo_ApiId := api;
                                RouteInfo_GetRouteOutput := Some item |}))
      | GetRouteItem None => (tr', Return None)
      end
  end.

End APIGatewayV2Route.

(** ** Table aws_cloudtrail_trail_event *)

Module CloudtrailTrailEvent.
Import Go Sdk.

(** [plugin.KeyColumn]: an empty [Operators] means equality only. *)
Record KeyColumn : Type := {
  Name : string;
  Operators : list string;
  Required : bool;
  CacheMatch : string
}.

Definition optional (name : string) : KeyColumn :=
  {| Name := name; Operators := []; Required := false;
     CacheMatch := EmptyString |}.

(** [tableAwsCloudtrailEventsListKeyColumns]. *)
Definition tableAwsCloudtrailEventsListKeyColumns : list KeyColumn :=
  [ {| Name := "log_group_name"; Operators := []; Required := true;
       CacheMatch := EmptyString |};
    optional "log_stream_name";
    {| Name := "filter"; Operators := []; Required := false;
       CacheMatch := "exact" |};
    optional "region";
    {| Name := "timestamp"; Operators := [">"; ">="; "="; "<"; "<="];
       Required := false; CacheMatch := EmptyString |};
    optional "event_category";
    optional "event_id";
    optional "aws_region";
    optional "source_ip_address";
    optional "error_code";
    optional "event_name";
    optional "read_only";
    optional "username";
    optional "user_type";
    optional "event_source";
    optional "access_key_id" ]%string.

(** The operators a key column accepts. *)
Definition declared_operators (kc : KeyColumn) : list string :=
  match Operators kc with
  | [] => ["="%string]
  | ops => ops
  end.

Definition List_Tags : list (string * string) :=
  [("service", "logs"); ("action", "FilterLogEvents")]%string.

(** [quals.Qual]. *)
Record Qual : Type := {
  Column : string;
  Operator : string;
  Value : option QualValue
}.

(** [types.FilteredLogEvent], the item and the row of the table. *)
Record FilteredLogEvent : Type := {
  EventId : option string;
  IngestionTime : option Z;
  LogStreamName : option string;
  Message : option string;
  Timestamp : option Z
}.

(** [cloudwatchlogs.FilterLogEventsInput], the provider filter object. *)
Record FilterLogEventsInput : Type := {
  LogGroupName : option string;
  Limit : option Z;
  LogStreamNames : list string;
  FilterPattern : option string;
  StartTime : option Z;
  EndTime : option Z;
  NextToken : option string
}.

Abbreviation trace :=
  (list (event FilterLogEventsInput FilteredLogEvent FilteredLogEvent)).

(** The map literal [filterQuals] of [buildQueryFilter]. *)
Definition filterQuals : list (string * string) :=
  [ ("access_key_id", "userIdentity.accessKeyId");
    ("aws_region", "awsRegion");
    ("error_code", "errorCode");
    ("event_category", "eventCategory");
    ("event_id", "eventID");
    ("event_name", "eventName");
    ("event_source", "eventSource");
    ("read_only", "readOnly");
    ("source_ip_address", "sourceIPAddress");
    ("username", "userIdentity.userName");
    ("user_type", "userIdentity.type") ]%string.

(** [fmt.Sprintf("( $.%s = \"%s\" )", filterKey, value)]. *)
Definition filterExpression (filterKey value : string) : string :=
  ("( $." +:+ filterKey +:+ " = " +:+ quote +:+ value +:+ quote +:+ " )")%string.

(** [buildQueryFilter].  Go ranges over the map [filterQuals] in an
    unspecified order: [iteration] is the order of one run, a permutation
    of [filterQuals]. *)
Definition buildQueryFilter (iteration : list (string * string))
    (equalQuals : gmap string QualValue) : list string :=
  fold_left
    (fun filters entry =>
       match equalQuals !! entry.1 with
       | Some _ =>
           filters ++
           [filterExpression entry.2 (GetStringValue (equalQuals !! entry.1))]
       | None => filters
       end)
    iteration [].

(** One turn of the loop over [quals["timestamp"].Quals]. *)
Definition timestampQual (input : FilterLogEventsInput) (q : Qual)
  : FilterLogEventsInput :=
  let tsSecs := GetTimestampSeconds (Value q) in
  let tsMs := int64 (tsSecs * 1000) in
  let op := Operator q in
  if (op =? "=")%string then
    {| LogGroupName := LogGroupName input; Limit := Limit input;
       LogStreamNames := LogStreamNames input;
       FilterPattern := FilterPattern input;
       StartTime := Some tsMs; EndTime := Some tsMs;
       NextToken := NextToken input |}
  else if ((op =? ">=") || (op =? ">"))%string then
    {| LogGroupName := LogGroupName input; Limit := Limit input;
       LogStreamNames := LogStreamNames input;
       FilterPattern := FilterPattern input;
       StartTime := Some tsMs; EndTime := EndTime input;
       NextToken := NextToken input |}
  else if ((op =? "<") || (op =? "<="))%string then
    {| LogGroupName := LogGroupName input; Limit := Limit input;
       LogStreamNames := LogStreamNames input;
       FilterPattern := FilterPattern input;
       StartTime := StartTime input; EndTime := Some tsMs;
       NextToken := NextToken input |}
  else input.

(** The operators the switch of the list function handles. *)
Definition handled_operator (op : string) : bool :=
  ((op =? "=") || (op =? ">=") || (op =? ">") || (op =? "<") || (op =? "<="))%string.

(** The ceiling [int32(10000)] of the list function. *)
Definition ceiling : Z := 10000.

(** The request the list function builds before paginating: [equalQuals]
    is [d.EqualsQuals], [quals] is [d.Quals] (the qualifiers of each
    column), [Limit] is [d.QueryContext.Limit]. *)
Definition filterLogEventsInput (iteration : list (string * string))
    (Limit : option Z) (equalQuals : gmap string QualValue)
    (quals : gmap string (list Qual)) : FilterLogEventsInput :=
  let queryFilter :=
    match equalQuals !! "filter"%string with
    | Some _ => GetStringValue (equalQuals !! "filter"%string)
    | None => EmptyString
    end in
  let filter := buildQueryFilter iteration equalQuals in
  let input :=
    {| LogGroupName :=
         Some (GetStringValue (equalQuals !! "log_group_name"%string));
       Limit := Some (maxLimit ceiling Limit);
       LogStreamNames :=
         match equalQuals !! "log_stream_name"%string with
         | Some _ =>
             [GetStringValue (equalQuals !! "log_stream_name"%string)]
         | None => []
         end;
       FilterPattern :=
         if negb (queryFilter =? "")%string then Some queryFilter
         else if (0 <? length filter)%nat then
           Some ("{ " +:+ String.concat " && " filter +:+ " }")%string
         else None;
       StartTime := None; EndTime := None; NextToken := None |} in
  match quals !! "timestamp"%string with
  | Some qs => fold_left timestampQual qs input
  | None => input
  end.

(** The request of one [paginator.NextPage] call: the AWS SDK paginator
    copies the input, sets the token and, when its [Limit] option is
    positive, the page size. *)
Definition pageRequest (input : FilterLogEventsInput) (limit : Z)
    (token : option string) : FilterLogEventsInput :=
  {| LogGroupName := LogGroupName input;
     Limit := if 0 <? limit then Some limit else None;
     LogStreamNames := LogStreamNames input;
     FilterPattern := FilterPattern input;
     StartTime := StartTime input; EndTime := EndTime input;
     NextToken := token |}.

(** [paginator.HasMorePages] after a page that carried the token [next],
    with [StopOnDuplicateToken] set: the token is dropped when it repeats
    the previous one, and an empty token ends the pagination. *)
Definition hasMorePages (prev : option string) (next : string) : bool :=
  let duplicate :=
    match prev with
    | Some p => (p =? next)%string
    | None => false
    end in
  negb duplicate && negb (next =? "")%string.

Section ListFunction.

(** [d.RowsRemaining(ctx)], as for the routes table. *)
Variable RowsRemaining : trace -> Z.

(** [for _, items := range output.Events]. *)
Fixpoint streamEvents (Events : list FilteredLogEvent) (tr : trace)
  : trace * flow (option FilteredLogEvent) :=
  match Events with
  | [] => (tr, Continue)
  | items :: Events' =>
      let tr' := tr ++ [StreamListItem items] in
      if RowsRemaining tr' =? 0 then (tr', Exit (Return None))
      else streamEvents Events' tr'
  end.

(** [for paginator.HasMorePages()]: entered with [HasMorePages] true. *)
Fixpoint filterLogEventsPages (input : FilterLogEventsInput) (limit : Z)
    (token : option string) (svc : pages FilteredLogEvent) (tr : trace)
  : trace * outcome (option FilteredLogEvent) :=
  let params := pageRequest input limit token in
  let tr1 := tr ++ [WaitForListRateLimit; ProviderCall params (answer svc)] in
  match svc with
  | CallFails err => (tr1, Fail err)
  | LastPage Events =>
      match streamEvents Events tr1 with
      | (tr2, Exit o) => (tr2, o)
      | (tr2, Continue) => (tr2, Return None)
      end
  | MorePages Events next rest =>
      match streamEvents Events tr1 with
      | (tr2, Exit o) => (tr2, o)
      | (tr2, Continue) =>
          if hasMorePages token next
          then filterLogEventsPages input limit (Some next) rest tr2
          else (tr2, Return None)
      end
  end.

(** [listCloudwatchLogTrailEvents]: [session] is what
    [CloudWatchLogsClient(ctx, d)] resolves to; the function tests only
    its error. *)
Definition listCloudwatchLogTrailEvents (iteration : list (string * string))
    (Limit : option Z) (equalQuals : gmap string QualValue)
    (quals : gmap string (list Qual))
    (session : service_resolution (pages FilteredLogEvent)) (tr : trace)
  : trace * outcome (option FilteredLogEvent) :=
  match session with
  | ServiceError err => (tr, Fail err)
  | Service svc =>
      let input := filterLogEventsInput iteration Limit equalQuals quals in
      filterLogEventsPages input (maxLimit ceiling Limit) None svc tr
  end.

End ListFunction.

End CloudtrailTrailEvent.

(** ** Table aws_lambda_alias *)

Module LambdaAlias.
Import Go Sdk.

(** [plugin.Column], as far as column resolution reads it: the name, the
    hydrate function if one is declared (the engine identifies a hydrate
    function by its name), and the field path of the transform ([None]
    for the default transform). *)
Record Column : Type := {
  Name : string;
  Hydrate : option string;
  FromField : option string
}.

(** The column literal of [tableAwsLambdaAlias]. *)
Definition Columns : list Column :=
  [ {| Name := "name"; Hydrate := None; FromField := Some "Alias.Name" |};
    {| Name := "function_name"; Hydrate := None; FromField := None |};
    {| Name := "alias_arn"; Hydrate := None;
       FromField := Some "Alias.AliasArn" |};
    {| Name := "function_version"; Hydrate := None;
       FromField := Some "Alias.FunctionVersion" |};
    {| Name := "revision_id"; Hydrate := None;
       FromField := Some "Alias.RevisionId" |};
    {| Name := "description"; Hydrate := None;
       FromField := Some "Alias.Description" |};
    {| Name := "policy"; Hydrate := Some "getLambdaAliasPolicy";
       FromField := None |};
    {| Name := "policy_std"; Hydrate := Some "getLambdaAliasPolicy";
       FromField := Some "Policy" |};
    {| Name := "title"; Hydrate := None; FromField := Some "Alias.Name" |};
    {| Name := "akas"; Hydrate := None;
       FromField := Some "Alias.AliasArn" |} ]%string.

Definition Get_KeyColumns : list string :=
  ["name"; "function_name"; "region"]%string.

(** The ListConfig of the table declares no tags. *)
Definition List_Tags : list (string * string) := [].

(** [lambda.AliasConfiguration]. *)
Record AliasConfiguration : Type := {
  AliasArn : option string;
  Description : option string;
  FunctionVersion : option string;
  AliasName : option string;
  RevisionId : option string
}.

(** [lambda.FunctionConfiguration], the parent item; only the name is
    read. *)
Record FunctionConfiguration : Type := { FunctionName : option string }.

(** [aliasRowData], the row item. *)
Record aliasRowData : Type := {
  Alias : option AliasConfiguration;
  aliasRowData_FunctionName : option string
}.

(** [lambda.ListAliasesInput]; the SDK pagination sets the marker. *)
Record ListAliasesInput : Type := {
  ListAliasesInput_FunctionName : option string;
  Marker : option string
}.

(** [lambda.GetAliasInput]. *)
Record GetAliasInput : Type := {
  GetAliasInput_FunctionName : option string;
  GetAliasInput_Name : option string
}.

(** [lambda.GetPolicyInput]. *)
Record GetPolicyInput : Type := {
  GetPolicyInput_FunctionName : option string;
  Qualifier : option string
}.

(** [lambda.GetPolicyOutput]. *)
Record GetPolicyOutput : Type := {
  Policy : option string;
  GetPolicyOutput_RevisionId : option string
}.

(** [lambda.GetPolicyOutput{}]. *)
Definition emptyGetPolicyOutput : GetPolicyOutput :=
  {| Policy := None; GetPolicyOutput_RevisionId := None |}.

(** What the policy hydrate hands back: the struct by value or the
    pointer the provider call returned. *)
Inductive policyItem : Type :=
| ByValue (o : GetPolicyOutput)
| ByPointer (op : GetPolicyOutput).

(** What a GetAlias or GetPolicy call answers: [(out, err)]. *)
Inductive callResult (Out : Type) : Type :=
| CallOk (out : Out)
| CallErr (err : error).
Arguments CallOk {Out} out.
Arguments CallErr {Out} err.

Abbreviation trace :=
  (list (event ListAliasesInput AliasConfiguration aliasRowData)).
Abbreviation get_trace :=
  (list (GetAliasInput * callResult AliasConfiguration)).
Abbreviation policy_trace :=
  (list (GetPolicyInput * callResult GetPolicyOutput)).

(** The callback of [listLambdaAliases]: every alias of the page is
    streamed. *)
Fixpoint streamAliases (function : FunctionConfiguration)
    (Aliases : list AliasConfiguration) (tr : trace) : trace :=
  match Aliases with
  | [] => tr
  | alias :: Aliases' =>
      streamAliases function Aliases'
        (tr ++ [StreamListItem
                  {| Alias := Some alias;
                     aliasRowData_FunctionName := FunctionName function |}])
  end.

(** [svc.ListAliasesPages(input, fn)] of the AWS SDK: one call per page,
    [fn(page, lastPage)] after each, until [fn] returns false, no page
    follows or a call fails; the callback returns [!lastPage]. *)
Fixpoint ListAliasesPages (function : FunctionConfiguration)
    (marker : option string) (svc : pages AliasConfiguration) (tr : trace)
  : trace * option error :=
  let input :=
    {| ListAliasesInput_FunctionName := FunctionName function;
       Marker := marker |} in
  let tr1 := tr ++ [ProviderCall input (answer svc)] in
  match svc with
  | CallFails err => (tr1, Some err)
  | LastPage Aliases => (streamAliases function Aliases tr1, None)
  | MorePages Aliases next rest =>
      let lastPage := false in
      let tr2 := streamAliases function Aliases tr1 in
      if negb lastPage then ListAliasesPages function (Some next) rest tr2
      else (tr2, None)
  end.

(** [listLambdaAliases]: [session] is what [LambdaService(ctx, d)]
    resolves to, [function] is [h.Item]. *)
Definition listLambdaAliases (function : FunctionConfiguration)
    (session : service_resolution (pages AliasConfiguration)) (tr : trace)
  : trace * outcome (option aliasRowData) :=
  match session with
  | ServiceError err => (tr, Fail err)
  | Service svc =>
      match ListAliasesPages function None svc tr with
      | (tr', Some err) => (tr', Fail err)
      | (tr', None) => (tr', Return None)
      end
  end.

(** [getLambdaAlias]: [matrixRegion] is what
    [d.KeyColumnQualString(matrixKeyRegion)] returns, [KeyColumnQuals] is
    [d.KeyColumnQuals]. *)
Definition getLambdaAlias (matrixRegion : string)
    (KeyColumnQuals : gmap string QualValue)
    (session : service_resolution
                 (GetAliasInput -> callResult AliasConfiguration))
    (tr : get_trace) : get_trace * outcome (option aliasRowData) :=
  let name := GetStringValue (KeyColumnQuals !! "name"%string) in
  let functionName :=
    GetStringValue (KeyColumnQuals !! "function_name"%string) in
  let region := GetStringValue (KeyColumnQuals !! "region"%string) in
  if ((name =? "") || (functionName =? "")
      || negb (region =? matrixRegion))%string
  then (tr, Return None)
  else
    match session with
    | ServiceError err => (tr, Fail err)
    | Service svc =>
        let params :=
          {| GetAliasInput_FunctionName := Some functionName;
             GetAliasInput_Name := Some name |} in
        let tr' := tr ++ [(params, svc params)] in
        match svc params with
        | CallErr err => (tr', Fail err)
        | CallOk rowData =>
            (tr', Return (Some {| Alias := Some rowData;
                                  aliasRowData_FunctionName :=
                                    Some functionName |}))
        end
    end.

(** [getLambdaAliasPolicy]: [alias] is [h.Item]. *)
Definition getLambdaAliasPolicy (alias : aliasRowData)
    (session : service_resolution
                 (GetPolicyInput -> callResult GetPolicyOutput))
    (tr : policy_trace) : policy_trace * outcome policyItem :=
  match session with
  | ServiceError err => (tr, Fail err)
  | Service svc =>
      match aliasRowData_FunctionName alias with
      | None => (tr, Panic)
      | Some functionName =>
          match Alias alias with
          | None => (tr, Panic)
          | Some a =>
              match AliasName a with
              | None => (tr, Panic)
              | Some name =>
                  let input :=
                    {| GetPolicyInput_FunctionName := Some functionName;
                       Qualifier := Some name |} in
                  let tr' := tr ++ [(input, svc input)] in
                  match svc input with
                  | CallErr err =>
                      match err with
                      | AwsError code _ =>
                          if (code =? "ResourceNotFoundException")%string
                          then (tr', Return (ByValue emptyGetPolicyOutput))
                          else (tr', Fail err)
                      | PlainError _ => (tr', Fail err)
                      end
                  | CallOk op => (tr', Return (ByPointer op))
                  end
              end
          end
      end
  end.

End LambdaAlias.

(** ** Table aws_cloudfront_origin_access_identity *)

Module CloudFrontOriginAccessIdentity.
Import Go Sdk.

(** [cloudfront.OriginAccessIdentitySummary]. *)
Record OriginAccessIdentitySummary : Type := {
  Comment : option string;
  Id : option string;
  S3CanonicalUserId : option string
}.

(** [cloudfront.OriginAccessIdentity]. *)
Record OriginAccessIdentity : Type := {
  CallerReference : option string;
  OriginAccessIdentity_Comment : option string;
  OriginAccessIdentity_Id : option string;
  OriginAccessIdentity_S3CanonicalUserId : option string
}.

(** [cloudfront.GetCloudFrontOriginAccessIdentityOutput]. *)
Record GetCloudFrontOriginAccessIdentityOutput : Type := {
  CloudFrontOriginAccessIdentity : option OriginAccessIdentity;
  ETag : option string
}.

(** The dynamic type of [h.Item]: a pointer to one of the two structs the
    type switch knows, or anything else (nil included). *)
Inductive Item : Type :=
| OutputItem (o : GetCloudFrontOriginAccessIdentityOutput)
| SummaryItem (s : OriginAccessIdentitySummary)
| OtherItem.

(** [awsCommonColumnData]. *)
Record awsCommonColumnData : Type := {
  Partition : string;
  Region : string;
  AccountId : string
}.

(** [cloudfront.OriginAccessIdentityList], as far as the list function
    reads it. *)
Record OriginAccessIdentityList : Type := {
  Items : list OriginAccessIdentitySummary
}.

(** [cloudfront.ListCloudFrontOriginAccessIdentitiesOutput]: the list sits
    behind the pointer [CloudFrontOriginAccessIdentityList]. *)
Record ListCloudFrontOriginAccessIdentitiesOutput : Type := {
  CloudFrontOriginAccessIdentityList : option OriginAccessIdentityList
}.

(** The behaviour of the provider along one pagination of
    ListCloudFrontOriginAccessIdentities: the finite unfolding of its
    answers to the consecutive calls, each an output, with the marker of
    the next page when one follows, or an error. *)
Inductive identity_pages : Type :=
| LastOutput (page : ListCloudFrontOriginAccessIdentitiesOutput)
| MoreOutputs (page : ListCloudFrontOriginAccessIdentitiesOutput)
    (marker : string) (rest : identity_pages)
| OutputFails (e : error).

(** The items an output carries; an output without list carries none. *)
Definition page_items (page : ListCloudFrontOriginAccessIdentitiesOutput)
  : list OriginAccessIdentitySummary :=
  match CloudFrontOriginAccessIdentityList page with
  | Some l => Items l
  | None => []
  end.

Definition identity_answer (p : identity_pages)
  : response OriginAccessIdentitySummary :=
  match p with
  | LastOutput page => PageOut (page_items page) None
  | MoreOutputs page marker _ => PageOut (page_items page) (Some marker)
  | OutputFails e => CallError e
  end.

Abbreviation trace :=
  (list (event unit OriginAccessIdentitySummary Item)).
Abbreviation get_trace :=
  (list (option string * LambdaAlias.callResult
           GetCloudFrontOriginAccessIdentityOutput)).

(** [for _, identity := range ...Items]: every identity of the list is
    streamed. *)
Fixpoint streamIdentities (identities : list OriginAccessIdentitySummary)
    (tr : trace) : trace :=
  match identities with
  | [] => tr
  | identity :: identities' =>
      streamIdentities identities'
        (tr ++ [StreamListItem (SummaryItem identity)])
  end.

(** The callback of [listCloudFrontOriginAccessIdentities]:
    [page.CloudFrontOriginAccessIdentityList.Items] dereferences the list
    pointer of the page, which panics when it is nil; the callback
    returns [!isLast]. *)
Definition callback (page : ListCloudFrontOriginAccessIdentitiesOutput)
    (isLast : bool) (tr : trace) : trace * outcome bool :=
  match CloudFrontOriginAccessIdentityList page with
  | None => (tr, Panic)
  | Some l => (streamIdentities (Items l) tr, Return (negb isLast))
  end.

(** [svc.ListCloudFrontOriginAccessIdentitiesPages(input, fn)] of the AWS
    SDK, with the empty input of the list function: one call per page,
    [fn(page, isLast)] after each, until [fn] returns false, no page
    follows or a call fails; a panic of [fn] unwinds through it. *)
Fixpoint ListCloudFrontOriginAccessIdentitiesPages (svc : identity_pages)
    (tr : trace) : trace * outcome unit :=
  let tr1 := tr ++ [ProviderCall tt (identity_answer svc)] in
  match svc with
  | OutputFails err => (tr1, Fail err)
  | LastOutput page =>
      match callback page true tr1 with
      | (tr2, Return _) => (tr2, Return tt)
      | (tr2, Fail err) => (tr2, Fail err)
      | (tr2, Panic) => (tr2, Panic)
      end
  | MoreOutputs page _ rest =>
      match callback page false tr1 with
      | (tr2, Return true) =>
          ListCloudFrontOriginAccessIdentitiesPages rest tr2
      | (tr2, Return false) => (tr2, Return tt)
      | (tr2, Fail err) => (tr2, Fail err)
      | (tr2, Panic) => (tr2, Panic)
      end
  end.

(** [listCloudFrontOriginAccessIdentities]: [session] is what
    [CloudFrontService(ctx, d)] resolves to; [return nil, err] hands the
    error of the pagination back, nil included. *)
Definition listCloudFrontOriginAccessIdentities
    (session : service_resolution identity_pages)
    (tr : trace) : trace * outcome (option Item) :=
  match session with
  | ServiceError err => (tr, Fail err)
  | Service svc =>
      match ListCloudFrontOriginAccessIdentitiesPages svc tr with
      | (tr', Fail err) => (tr', Fail err)
      | (tr', Return _) => (tr', Return None)
      | (tr', Panic) => (tr', Panic)
      end
  end.

(** [getCloudFrontOriginAccessIdentity]: [item] is [h.Item], [None] when
    it is nil. *)
Definition getCloudFrontOriginAccessIdentity (item : option Item)
    (KeyColumnQuals : gmap string QualValue)
    (session : service_resolution
                 (option string ->
                  LambdaAlias.callResult
                    GetCloudFrontOriginAccessIdentityOutput))
    (tr : get_trace) : get_trace * outcome Item :=
  match session with
  | ServiceError err => (tr, Fail err)
  | Service svc =>
      let identityID :=
        match item with
        | Some (SummaryItem s) =>
            match Id s with
            | Some id => Return id
            | None => Panic
            end
        | Some _ => Panic
        | None => Return (GetStringValue (KeyColumnQuals !! "id"%string))
        end in
      match identityID with
      | Return id =>
          let tr' := tr ++ [(Some id, svc (Some id))] in
          match svc (Some id) with
          | LambdaAlias.CallErr err => (tr', Fail err)
          | LambdaAlias.CallOk op => (tr', Return (OutputItem op))
          end
      | Fail err => (tr, Fail err)
      | Panic => (tr, Panic)
      end
  end.

(** [originAccessIdentityID]: the type switch; the Get output is read
    through its [CloudFrontOriginAccessIdentity] pointer. *)
Definition originAccessIdentityID (item : Item) : outcome (option string) :=
  match item with
  | OutputItem o =>
      match CloudFrontOriginAccessIdentity o with
      | Some oai => Return (OriginAccessIdentity_Id oai)
      | None => Panic
      end
  | SummaryItem s => Return (Id s)
  | OtherItem => Return None
  end.

(** [getCloudFrontOriginAccessIdentityARN]: [item] is [h.Item],
    [commonColumns] is what [getCommonColumns(ctx, d, h)] returns. *)
Definition getCloudFrontOriginAccessIdentityARN (item : Item)
    (commonColumns : outcome awsCommonColumnData) : outcome string :=
  match originAccessIdentityID item with
  | Panic => Panic
  | Fail err => Fail err
  | Return None => Panic
  | Return (Some originAccessIdentityData) =>
      match commonColumns with
      | Panic => Panic
      | Fail err => Fail err
      | Return commonColumnData =>
          Return ("arn:" +:+ Partition commonColumnData +:+ ":cloudfront::"
                  +:+ AccountId commonColumnData
                  +:+ ":origin-access-identity/"
                  +:+ originAccessIdentityData)%string
      end
  end.

End CloudFrontOriginAccessIdentity.

(** ** Table aws_rds_db_instance_metric_cpu_utilization *)

Module RdsInstanceMetricCpuUtilization.
Import Go Sdk.

(** [types.DBInstance], the parent item; only the identifier is read. *)
Record DBInstance : Type := { DBInstanceIdentifier : option string }.

(** The tags of the ListConfig. *)
Definition List_Tags : list (string * string) :=
  [("service", "cloudwatch"); ("action", "GetMetricStatistics")]%string.

Section ListFunction.

Context {Req Item Row : Type}.

(** [listCWMetricStatistics(ctx, d, granularity, namespace, metricName,
    dimensionName, dimensionValue)], a function of this repository that
    is not among the sources: it is taken as a parameter, with the trace
    of the scan threaded through it. *)
Variable listCWMetricStatistics :
  string -> string -> string -> string -> string ->
  list (event Req Item Row) ->
  list (event Req Item Row) * outcome (option Row).

(** [listRdsInstanceMetricCpuUtilization]: [instance] is [h.Item]; the
    identifier is dereferenced when the arguments of the call are
    evaluated. *)
Definition listRdsInstanceMetricCpuUtilization (instance : DBInstance)
    (tr : list (event Req Item Row))
  : list (event Req Item Row) * outcome (option Row) :=
  match DBInstanceIdentifier instance with
  | None => (tr, Panic)
  | Some dimensionValue =>
      listCWMetricStatistics "5_MIN" "AWS/RDS" "CPUUtilization"
        "DBInstanceIdentifier" dimensionValue tr
  end.

End ListFunction.

End RdsInstanceMetricCpuUtilization.

(** ** The rate limiter in front of a Get function *)

Module RateLimiter.
Import Go.

(** What a scan does around a Get function: the waits on the budget of
    a tag and the provider calls of the function. *)
Inductive gated_event (Call : Type) : Type :=
| RateLimitWait (tags : list (string * string))
| TaggedCall (c : Call).
Arguments RateLimitWait {Call} tags.
Arguments TaggedCall {Call} c.

(** Modelled from the spec: the Rate Limiter/Waiter (spec 4.5) in front
    of a Get function, whose driver lives in the plugin SDK and not in
    this repository.  Before a call tagged with a (service, action) pair
    the engine blocks until the shared budget admits one more call: it
    blocks once on the budget of the tags of the Get configuration and
    then runs the function, whose provider calls follow the wait; a
    configuration without tags is run without a wait. *)
Definition gate {Call O : Type} (Tags : list (string * string))
    (hydrate : list Call -> list Call * O) (tr : list (gated_event Call))
  : list (gated_event Call) * O :=
  let run := hydrate [] in
  (tr ++ match Tags with
         | [] => []
         | _ :: _ => [RateLimitWait Tags]
         end ++ map TaggedCall run.1,
   run.2).

(** Every provider call is directly preceded by a wait on the budget of
    [Tags]. *)
Definition gated_calls_wait {Call : Type} (Tags : list (string * string))
    (tr : list (gated_event Call)) : Prop :=
  forall pre post c,
    tr = pre ++ TaggedCall c :: post ->
    exists pre', pre = pre' ++ [RateLimitWait Tags].

End RateLimiter.

(** ** Column resolution of the engine *)

Module Hydration.
Import Go.

Section Engine.

Context {Item Val Trace : Type}.

(** The hydrate functions of a table, by name: running one against the
    row item may issue provider calls, recorded in the trace. *)
Variable run : string -> Item -> Trace -> Trace * outcome Val.

(** The per-row state: the listed item, the memoized hydrate results and
    the log of the hydrate functions run for the row. *)
Record RowContext : Type := {
  item : Item;
  results : gmap string Val;
  invocations : list string
}.

Definition Listed (i : Item) : RowContext :=
  {| item := i; results := ∅; invocations := [] |}.

(** Modelled from the spec: column resolution of the Parent/Child
    Hydration Graph (spec 4.4), which lives in the plugin SDK and not in
    this repository.  A column without a hydrate function is read from the
    listed item; otherwise the declared hydrate function runs against the
    RowContext unless its result is already cached, and the result is
    cached for the other columns that share the function.  A hydrate
    failure ends the resolution of the row. *)
Fixpoint resolveColumns (projection : list (option string))
    (ctx : RowContext) (tr : Trace) : RowContext * Trace * outcome unit :=
  match projection with
  | [] => (ctx, tr, Return tt)
  | None :: projection' => resolveColumns projection' ctx tr
  | Some f :: projection' =>
      match results ctx !! f with
      | Some _ => resolveColumns projection' ctx tr
      | None =>
          let '(tr', o) := run f (item ctx) tr in
          let log := invocations ctx ++ [f] in
          match o with
          | Return v =>
              resolveColumns projection'
                {| item := item ctx; results := <[f := v]> (results ctx);
                   invocations := log |} tr'
          | Fail e =>
              ({| item := item ctx; results := results ctx;
                  invocations := log |}, tr', Fail e)
          | Panic =>
              ({| item := item ctx; results := results ctx;
                  invocations := log |}, tr', Panic)
          end
      end
  end.

(** How often the hydrate function [f] ran for a row. *)
Definition invoked (f : string) (ctx : RowContext) : nat :=
  length (filter (fun g => g = f) (invocations ctx)).

(** Every hydrate function in the log has its result cached. *)
Definition logged_are_cached (ctx : RowContext) : Prop :=
  forall f, f ∈ invocations ctx -> is_Some (results ctx !! f).

End Engine.

Arguments RowContext Item Val : clear implicits.

(** The hydrate functions of aws_lambda_alias, by name. *)
Definition lambdaAliasHydrate
    (session : Sdk.service_resolution
                 (LambdaAlias.GetPolicyInput ->
                  LambdaAlias.callResult LambdaAlias.GetPolicyOutput))
    (f : string) (alias : LambdaAlias.aliasRowData)
    (tr : LambdaAlias.policy_trace)
  : LambdaAlias.policy_trace * outcome LambdaAlias.policyItem :=
  if (f =? "getLambdaAliasPolicy")%string
  then LambdaAlias.getLambdaAliasPolicy alias session tr
  else (tr, Panic).

(** Resolving the requested columns of one aws_lambda_alias row. *)
Definition resolveLambdaAliasRow
    (session : Sdk.service_resolution
                 (LambdaAlias.GetPolicyInput ->
                  LambdaAlias.callResult LambdaAlias.GetPolicyOutput))
    (projection : list LambdaAlias.Column) (alias : LambdaAlias.aliasRowData)
  : RowContext LambdaAlias.aliasRowData LambdaAlias.policyItem
    * LambdaAlias.policy_trace * outcome unit :=
  resolveColumns (lambdaAliasHydrate session)
    (map LambdaAlias.Hydrate projection) (Listed alias) [].

End Hydration.

(** ** The common shape of the two rate-limited list loops

    [listAPIGatewayV2Routes] and [listCloudwatchLogTrailEvents] run the
    same loop over different requests and rows.  The loop is stated once
    here, the two embedded functions are shown equal to an instance of it,
    and its properties are proved once. *)

Module Paginator.
Import Go Sdk.

Section Loop.

Context {Req Item Row : Type}.
Local Abbreviation trace := (list (event Req Item Row)).

Variable RowsRemaining : trace -> Z.
(** The request of a page, from the continuation token. *)
Variable request : option string -> Req.
(** The row built from a page item; [None] when building it panics. *)
Variable row : Item -> option Row.
(** Whether the loop goes on after a page with a token. *)
Variable more : option string -> string -> bool.

Fixpoint streamItems (items : list Item) (tr : trace)
  : trace * flow (option Row) :=
  match items with
  | [] => (tr, Continue)
  | i :: items' =>
      match row i with
      | None => (tr, Exit Panic)
      | Some r =>
          let tr' := tr ++ [StreamListItem r] in
          if RowsRemaining tr' =? 0 then (tr', Exit (Return None))
          else streamItems items' tr'
      end
  end.

Fixpoint paginate (token : option string) (svc : pages Item) (tr : trace)
  : trace * outcome (option Row) :=
  let tr1 :=
    tr ++ [WaitForListRateLimit; ProviderCall (request token) (answer svc)] in
  match svc with
  | CallFails err => (tr1, Fail err)
  | LastPage items =>
      match streamItems items tr1 with
      | (tr2, Exit o) => (tr2, o)
      | (tr2, Continue) => (tr2, Return None)
      end
  | MorePages items next rest =>
      match streamItems items tr1 with
      | (tr2, Exit o) => (tr2, o)
      | (tr2, Continue) =>
          if more token next then paginate (Some next) rest tr2
          else (tr2, Return None)
      end
  end.

End Loop.

End Paginator.

(** ** The two list loops as instances of the common loop *)

Module Instances.
Import Go Sdk.

(** The request [listAPIGatewayV2Routes] sends for a page. *)
Definition routesRequest (api : APIGatewayV2Route.Api) (maxLimit : Z)
    (token : option string) : APIGatewayV2Route.GetRoutesInput :=
  {| APIGatewayV2Route.GetRoutesInput_ApiId := APIGatewayV2Route.ApiId api;
     APIGatewayV2Route.MaxResults := Some (pretty maxLimit);
     APIGatewayV2Route.NextToken := token |}.

(** The row [listAPIGatewayV2Routes] streams for a page item. *)
Definition routeRow (api : APIGatewayV2Route.Api)
    (route : APIGatewayV2Route.Route) : option APIGatewayV2Route.RouteInfo :=
  match APIGatewayV2Route.ApiId api with
  | None => None
  | Some id =>
      Some {| APIGatewayV2Route.RouteInfo_ApiId := id;
              APIGatewayV2Route.RouteInfo_GetRouteOutput :=
                Some (APIGatewayV2Route.routeOp route) |}
  end.

(** The page size a scan with the caller limit [Limit] asks for under the
    ceiling [C], in the words of the amended claim: the ceiling, lowered
    to the caller's initial limit, never below 1. *)
Definition page_size (C : Z) (Limit : option Z) : Z :=
  match Limit with
  | None => C
  | Some l => Z.min C (Z.max 1 l)
  end.

(** The columns whose predicates [listCloudwatchLogTrailEvents] reads
    from [d.EqualsQuals]. *)
Definition pushdown_columns : list string :=
  ["log_group_name"; "log_stream_name"; "filter"]%string
  ++ map fst CloudtrailTrailEvent.filterQuals.

(** The identity a row item carries, when its pointers are set. *)
Definition identityId (item : CloudFrontOriginAccessIdentity.Item)
  : option string :=
  match item with
  | CloudFrontOriginAccessIdentity.OutputItem o =>
      match CloudFrontOriginAccessIdentity.CloudFrontOriginAccessIdentity o with
      | Some oai => CloudFrontOriginAccessIdentity.OriginAccessIdentity_Id oai
      | None => None
      end
  | CloudFrontOriginAccessIdentity.SummaryItem s =>
      CloudFrontOriginAccessIdentity.Id s
  | CloudFrontOriginAccessIdentity.OtherItem => None
  end.

(** The row item is one of the two variants of the type switch. *)
Definition known_variant (item : CloudFrontOriginAccessIdentity.Item) : bool :=
  match item with
  | CloudFrontOriginAccessIdentity.OtherItem => false
  | _ => true
  end.

(** The key column of the trail-event table named [col], if declared. *)
Definition key_column (col : string) : option CloudtrailTrailEvent.KeyColumn :=
  find (fun kc => (CloudtrailTrailEvent.Name kc =? col)%string)
    CloudtrailTrailEvent.tableAwsCloudtrailEventsListKeyColumns.

(** A key column is missing from the qualifiers or supplied as the empty
    string. *)
Definition missing_or_empty (quals : gmap string QualValue) (key : string)
  : Prop :=
  quals !! key = None \/ quals !! key = Some (StringValue EmptyString).

(** [err.(awserr.Error)] and [Code()]: the code of an AWS error. *)
Definition error_code (err : error) : option string :=
  match err with
  | AwsError code _ => Some code
  | PlainError _ => None
  end.

(** The ARN [getCloudFrontOriginAccessIdentityARN] assembles. *)
Definition identityArn (c : CloudFrontOriginAccessIdentity.awsCommonColumnData)
    (id : string) : string :=
  ("arn:" +:+ CloudFrontOriginAccessIdentity.Partition c +:+ ":cloudfront::"
   +:+ CloudFrontOriginAccessIdentity.AccountId c
   +:+ ":origin-access-identity/" +:+ id)%string.

End Instances.

(** ** Concrete inputs *)

Module Examples.
Import Go Sdk.

Definition route (id : string) : APIGatewayV2Route.Route :=
  {| APIGatewayV2Route.Route_ApiGatewayManaged := None;
     APIGatewayV2Route.Route_ApiKeyRequired := None;
     APIGatewayV2Route.Route_AuthorizationScopes := [];
     APIGatewayV2Route.Route_AuthorizationType := "NONE";
     APIGatewayV2Route.Route_AuthorizerId := None;
     APIGatewayV2Route.Route_ModelSelectionExpression := None;
     APIGatewayV2Route.Route_OperationName := None;
     APIGatewayV2Route.Route_RequestModels := ∅;
     APIGatewayV2Route.Route_RequestParameters := ∅;
     APIGatewayV2Route.Route_RouteId := Some id;
     APIGatewayV2Route.Route_RouteKey := Some "GET /";
     APIGatewayV2Route.Route_RouteResponseSelectionExpression := None;
     APIGatewayV2Route.Route_Target := None |}.

Definition api : APIGatewayV2Route.Api :=
  {| APIGatewayV2Route.ApiId := Some "a1b2"%string |}.

(** A provider that answers one route. *)
Definition one_route : pages APIGatewayV2Route.Route :=
  LastPage [route "r1"].

(** A provider that answers two routes with a token, then a third. *)
Definition three_routes : pages APIGatewayV2Route.Route :=
  MorePages [route "r1"; route "r2"] "t1" (LastPage [route "r3"]).

(** A provider whose second call fails. *)
Definition throttled : error := AwsError "ThrottlingException" "Rate exceeded".

Definition routes_then_failure : pages APIGatewayV2Route.Route :=
  MorePages [route "r1"; route "r2"] "t1" (CallFails throttled).

Definition log_event (msg : string) : CloudtrailTrailEvent.FilteredLogEvent :=
  {| CloudtrailTrailEvent.EventId := None;
     CloudtrailTrailEvent.IngestionTime := None;
     CloudtrailTrailEvent.LogStreamName := Some "stream"%string;
     CloudtrailTrailEvent.Message := Some msg;
     CloudtrailTrailEvent.Timestamp := Some 1700000000000 |}.

Definition three_events : pages CloudtrailTrailEvent.FilteredLogEvent :=
  MorePages [log_event "e1"; log_event "e2"] "t1" (LastPage [log_event "e3"]).

Definition events_then_failure : pages CloudtrailTrailEvent.FilteredLogEvent :=
  MorePages [log_event "e1"; log_event "e2"] "t1" (CallFails throttled).

Definition trail_quals : gmap string QualValue :=
  <["log_group_name"%string := StringValue "trail-logs"]> ∅.

Definition alias (name : string) : LambdaAlias.AliasConfiguration :=
  {| LambdaAlias.AliasArn := None; LambdaAlias.Description := None;
     LambdaAlias.FunctionVersion := Some "1"%string;
     LambdaAlias.AliasName := Some name; LambdaAlias.RevisionId := None |}.

Definition function : LambdaAlias.FunctionConfiguration :=
  {| LambdaAlias.FunctionName := Some "fn"%string |}.

Definition three_aliases : pages LambdaAlias.AliasConfiguration :=
  MorePages [alias "a1"; alias "a2"] "m1" (LastPage [alias "a3"]).

(** Trail-event predicates: two pushdown columns, one column that is not
    pushed down, and timestamp qualifiers of which one carries an operator
    the list function does not handle. *)
Definition trail_predicates : gmap string QualValue :=
  <["event_name"%string := StringValue "ConsoleLogin"]>
    (<["recipient_account_id"%string := StringValue "123456789012"]>
       trail_quals).

Definition trail_timestamps : gmap string (list CloudtrailTrailEvent.Qual) :=
  <["timestamp"%string :=
      [ {| CloudtrailTrailEvent.Column := "timestamp";
           CloudtrailTrailEvent.Operator := ">=";
           CloudtrailTrailEvent.Value := Some (TimestampValue 1700000000) |};
        {| CloudtrailTrailEvent.Column := "timestamp";
           CloudtrailTrailEvent.Operator := "<>";
           CloudtrailTrailEvent.Value := Some (TimestampValue 1700000500) |} ]
   ]> ∅.

(** Get qualifiers with an empty alias name. *)
Definition alias_quals_empty_name : gmap string QualValue :=
  <["name"%string := StringValue ""]>
    (<["function_name"%string := StringValue "fn"]>
       (<["region"%string := StringValue "us-east-1"]> ∅)).

Definition not_found : error :=
  AwsError "ResourceNotFoundException" "no policy".

Definition alias_never_found
  : LambdaAlias.GetAliasInput ->
    LambdaAlias.callResult LambdaAlias.AliasConfiguration :=
  fun _ => LambdaAlias.CallErr not_found.

(** Get qualifiers with an empty route id. *)
Definition route_quals_empty_id : gmap string QualValue :=
  <["api_id"%string := StringValue "a1b2"]>
    (<["route_id"%string := StringValue ""]> ∅).

Definition route_never_found
  : APIGatewayV2Route.GetRouteInput -> APIGatewayV2Route.GetRouteResult :=
  fun _ => APIGatewayV2Route.GetRouteError
             (AwsError "NotFoundException" "Invalid Route identifier").

Definition alias_row : LambdaAlias.aliasRowData :=
  {| LambdaAlias.Alias := Some (alias "live");
     LambdaAlias.aliasRowData_FunctionName := Some "fn"%string |}.

Definition policy_never_found
  : LambdaAlias.GetPolicyInput ->
    LambdaAlias.callResult LambdaAlias.GetPolicyOutput :=
  fun _ => LambdaAlias.CallErr not_found.

Definition policy_denied
  : LambdaAlias.GetPolicyInput ->
    LambdaAlias.callResult LambdaAlias.GetPolicyOutput :=
  fun _ => LambdaAlias.CallErr (AwsError "AccessDeniedException" "denied").

Definition policy_found
  : LambdaAlias.GetPolicyInput ->
    LambdaAlias.callResult LambdaAlias.GetPolicyOutput :=
  fun _ => LambdaAlias.CallOk
             {| LambdaAlias.Policy := Some "{}"%string;
                LambdaAlias.GetPolicyOutput_RevisionId := None |}.

(** The projection that asks for both policy columns. *)
Definition policy_projection : list LambdaAlias.Column :=
  List.filter
    (fun c => ((LambdaAlias.Name c =? "policy")
               || (LambdaAlias.Name c =? "policy_std"))%string)
    LambdaAlias.Columns.

(** A summary whose [Id] pointer is nil, and one that carries an id. *)
Definition summary_without_id
  : CloudFrontOriginAccessIdentity.OriginAccessIdentitySummary :=
  {| CloudFrontOriginAccessIdentity.Comment := Some "legacy"%string;
     CloudFrontOriginAccessIdentity.Id := None;
     CloudFrontOriginAccessIdentity.S3CanonicalUserId := None |}.

Definition summary_with_id
  : CloudFrontOriginAccessIdentity.OriginAccessIdentitySummary :=
  {| CloudFrontOriginAccessIdentity.Comment := None;
     CloudFrontOriginAccessIdentity.Id := Some "E74FTE3AEXAMPLE"%string;
     CloudFrontOriginAccessIdentity.S3CanonicalUserId := None |}.

Definition common_columns
  : CloudFrontOriginAccessIdentity.awsCommonColumnData :=
  {| CloudFrontOriginAccessIdentity.Partition := "aws";
     CloudFrontOriginAccessIdentity.Region := "global";
     CloudFrontOriginAccessIdentity.AccountId := "123456789012" |}.

(** A stand-in for [listCWMetricStatistics]: it waits, asks for the
    statistics of the dimension value once and streams the datapoints. *)
Definition metric_statistics
    (granularity namespace metricName dimensionName dimensionValue : string)
    (tr : list (event string Z (string * Z)))
  : list (event string Z (string * Z)) * outcome (option (string * Z)) :=
  (tr ++ [WaitForListRateLimit;
          ProviderCall dimensionValue (PageOut [12; 40] None)]
      ++ map StreamListItem [(dimensionValue, 12); (dimensionValue, 40)],
   Return None).

Definition db_instance : RdsInstanceMetricCpuUtilization.DBInstance :=
  {| RdsInstanceMetricCpuUtilization.DBInstanceIdentifier :=
       Some "database-1"%string |}.

End Examples.

(** ** Further functions of the tables and notions to state their behaviour *)

Module Coverage.
Import Go Sdk.

(** Everything the provider would answer along a pagination that is
    followed to its end: the items of its pages up to the first failing
    call, and that failure if there is one. *)
Fixpoint provider_items {Item : Type} (svc : pages Item) : list Item :=
  match svc with
  | LastPage items => items
  | MorePages items _ rest => items ++ provider_items rest
  | CallFails _ => []
  end.

Fixpoint provider_failure {Item : Type} (svc : pages Item) : option error :=
  match svc with
  | LastPage _ => None
  | MorePages _ _ rest => provider_failure rest
  | CallFails e => Some e
  end.

(** What a list function returns after it followed the pagination to its
    end: [(nil, nil)], or the provider's error. *)
Definition finished {A Item : Type} (svc : pages Item) : outcome (option A) :=
  match provider_failure svc with
  | Some e => Fail e
  | None => Return None
  end.

Section Calls.

Context {Req Item Row : Type}.

(** The provider calls of a trace, each with its answer. *)
Fixpoint calls (tr : list (event Req Item Row))
  : list (Req * response Item) :=
  match tr with
  | [] => []
  | ProviderCall req resp :: tr' => (req, resp) :: calls tr'
  | _ :: tr' => calls tr'
  end.

(** Number of rate-limiter waits of a trace. *)
Fixpoint waits (tr : list (event Req Item Row)) : nat :=
  match tr with
  | [] => 0%nat
  | WaitForListRateLimit :: tr' => S (waits tr')
  | _ :: tr' => waits tr'
  end.

(** A sequence of calls follows the continuation tokens: each request
    carries the token [prev] of the answer before it (none at first), a
    further call is made only after an answer with a token for which
    [more] holds, and none after an answer without token or an error. *)
Fixpoint chained (tok : Req -> option string)
    (more : option string -> string -> bool) (prev : option string)
    (cs : list (Req * response Item)) : Prop :=
  match cs with
  | [] => True
  | (req, resp) :: cs' =>
      tok req = prev /\
      match resp with
      | PageOut _ (Some t) =>
          cs' = [] \/ (more prev t = true /\ chained tok more (Some t) cs')
      | _ => cs' = []
      end
  end.

(** The loop goes on after every page of [svc] that carries a token. *)
Fixpoint always_more (more : option string -> string -> bool)
    (prev : option string) (svc : pages Item) : Prop :=
  match svc with
  | MorePages _ next rest =>
      more prev next = true /\ always_more more (Some next) rest
  | _ => True
  end.

End Calls.

(** The pagination of ListCloudFrontOriginAccessIdentities as plain pages
    of items, when every output up to the first failing call carries its
    list; [None] when one of them does not. *)
Fixpoint with_lists (svc : CloudFrontOriginAccessIdentity.identity_pages)
  : option (pages CloudFrontOriginAccessIdentity.OriginAccessIdentitySummary) :=
  match svc with
  | CloudFrontOriginAccessIdentity.LastOutput page =>
      match CloudFrontOriginAccessIdentity.CloudFrontOriginAccessIdentityList
              page with
      | Some l => Some (LastPage (CloudFrontOriginAccessIdentity.Items l))
      | None => None
      end
  | CloudFrontOriginAccessIdentity.MoreOutputs page marker rest =>
      match CloudFrontOriginAccessIdentity.CloudFrontOriginAccessIdentityList
              page, with_lists rest with
      | Some l, Some rest' =>
          Some (MorePages (CloudFrontOriginAccessIdentity.Items l) marker rest')
      | _, _ => None
      end
  | CloudFrontOriginAccessIdentity.OutputFails e => Some (CallFails e)
  end.

(** The dynamic type of [h.Item] for a row of aws_api_gatewayv2_route:
    the list function streams [&RouteInfo{...}], a pointer, while
    [getAPIGatewayV2Route] returns [RouteInfo{api, item}], a struct
    value. *)
Inductive RouteItem : Type :=
| PointerRouteInfo (data : APIGatewayV2Route.RouteInfo)
| ValueRouteInfo (data : APIGatewayV2Route.RouteInfo).

(** [getAPIGatewayV2RouteARN]: [item] is [h.Item], [region] is
    [d.EqualsQualString(matrixKeyRegion)], [commonColumns] is what
    [getCommonColumns(ctx, d, h)] returns.  The type assertion of
    [h.Item] to a pointer to [RouteInfo] panics on a struct value, and
    the dereference of [data.RouteId] reads through the embedded
    [GetRouteOutput] pointer. *)
Definition getAPIGatewayV2RouteARN (item : RouteItem) (region : string)
    (commonColumns :
       outcome CloudFrontOriginAccessIdentity.awsCommonColumnData)
  : outcome string :=
  match item with
  | ValueRouteInfo _ => Panic
  | PointerRouteInfo data =>
      match commonColumns with
      | Panic => Panic
      | Fail err => Fail err
      | Return commonColumnData =>
          match APIGatewayV2Route.RouteInfo_GetRouteOutput data with
          | None => Panic
          | Some out =>
              match APIGatewayV2Route.RouteId out with
              | None => Panic
              | Some routeId =>
                  Return ("arn:"
                          +:+ CloudFrontOriginAccessIdentity.Partition
                                commonColumnData
                          +:+ ":apigateway:" +:+ region +:+ "::/apis/"
                          +:+ APIGatewayV2Route.RouteInfo_ApiId data
                          +:+ "/routes/" +:+ routeId)%string
              end
          end
      end
  end.

(** The ARN [getAPIGatewayV2RouteARN] assembles. *)
Definition routeArn (c : CloudFrontOriginAccessIdentity.awsCommonColumnData)
    (region apiId routeId : string) : string :=
  ("arn:" +:+ CloudFrontOriginAccessIdentity.Partition c +:+ ":apigateway:"
   +:+ region +:+ "::/apis/" +:+ apiId +:+ "/routes/" +:+ routeId)%string.

(** The operators for which the timestamp switch assigns [StartTime],
    and those for which it assigns [EndTime]. *)
Definition sets_start (op : string) : bool :=
  ((op =? "=") || (op =? ">=") || (op =? ">"))%string.

Definition sets_end (op : string) : bool :=
  ((op =? "=") || (op =? "<") || (op =? "<="))%string.

(** [tsMs] of a timestamp qualifier. *)
Definition timestampMs (q : CloudtrailTrailEvent.Qual) : Z :=
  int64 (GetTimestampSeconds (CloudtrailTrailEvent.Value q) * 1000).

(** The last qualifier of a list that satisfies [p]. *)
Definition last_with (p : string -> bool)
    (qs : list CloudtrailTrailEvent.Qual) : option CloudtrailTrailEvent.Qual :=
  find (fun q => p (CloudtrailTrailEvent.Operator q)) (rev qs).

(** The filter-key columns on which [equalQuals] holds a predicate. *)
Definition filter_columns_present (equalQuals : gmap string QualValue)
  : list (string * string) :=
  List.filter (fun entry => bool_decide (is_Some (equalQuals !! entry.1)))
    CloudtrailTrailEvent.filterQuals.

End Coverage.

(** * Properties *)

(** ** Traces *)

Module TraceFacts.
Import Go Sdk.

(** Where an element of a concatenation lies. *)
Lemma app_split_at {A : Type} (a b l r : list A) (x : A) :
  a ++ b = l ++ x :: r ->
  (exists r', a = l ++ x :: r' /\ r = r' ++ b) \/
  (exists l', l = a ++ l' /\ b = l' ++ x :: r).
Proof.
  revert l. induction a as [|y a IH]; intros l H.
  - right. exists l. done.
  - destruct l as [|z l]; simpl in H; injection H as -> H.
    + left. exists a. done.
    + destruct (IH _ H) as [(r' & -> & ->) | (l' & -> & ->)].
      * left. by exists r'.
      * right. by exists l'.
Qed.

Section Facts.

Context {Req Item Row : Type}.
Local Abbreviation trace := (list (event Req Item Row)).
Implicit Types tr pre post : trace.

Lemma rows_streamed_app tr1 tr2 :
  rows_streamed (tr1 ++ tr2) = rows_streamed tr1 + rows_streamed tr2.
Proof. induction tr1 as [|ev tr1 IH]; simpl; [lia | rewrite IH; lia]. Qed.

Lemma rows_streamed_nonneg tr : 0 <= rows_streamed tr.
Proof.
  induction tr as [|ev tr IH]; simpl; [lia | destruct (is_stream ev); lia].
Qed.

Lemma rows_streamed_rows (rows : list Row) :
  rows_streamed (map (@StreamListItem Req Item Row) rows)
  = Z.of_nat (length rows).
Proof. induction rows as [|r rows IH]; simpl; [done | rewrite IH; lia]. Qed.

Lemma streamed_app tr1 tr2 : streamed (tr1 ++ tr2) = streamed tr1 ++ streamed tr2.
Proof.
  induction tr1 as [|[| |] tr1 IH]; simpl; try done. by rewrite IH.
Qed.

Lemma streamed_rows (rows : list Row) :
  streamed (map (@StreamListItem Req Item Row) rows) = rows.
Proof. induction rows as [|r rows IH]; simpl; [done | by rewrite IH]. Qed.

Lemma requests_app tr1 tr2 : requests (tr1 ++ tr2) = requests tr1 ++ requests tr2.
Proof.
  induction tr1 as [|[| |] tr1 IH]; simpl; try done. by rewrite IH.
Qed.

Lemma requests_rows (rows : list Row) :
  requests (map (@StreamListItem Req Item Row) rows) = [].
Proof. induction rows as [|r rows IH]; simpl; done. Qed.

Lemma fetched_app tr1 tr2 : fetched (tr1 ++ tr2) = fetched tr1 ++ fetched tr2.
Proof.
  induction tr1 as [|[|req [items tok|e]|] tr1 IH]; simpl; try done.
  by rewrite IH, app_assoc.
Qed.

Lemma fetched_rows (rows : list Row) :
  fetched (map (@StreamListItem Req Item Row) rows) = [].
Proof. induction rows as [|r rows IH]; simpl; done. Qed.

Lemma no_call_in_rows (rows : list Row) pre post req resp :
  map (@StreamListItem Req Item Row) rows <> pre ++ ProviderCall req resp :: post.
Proof.
  intros H.
  assert (Hin : In (ProviderCall req resp) (map (@StreamListItem Req Item Row) rows)).
  { rewrite H. apply in_or_app. right. by left. }
  apply in_map_iff in Hin as (r & Hr & _). discriminate.
Qed.

Lemma waits_before_calls_nil : waits_before_calls ([] : trace).
Proof. intros pre post req resp H. destruct pre; discriminate. Qed.

Lemma waits_before_calls_app tr1 tr2 :
  waits_before_calls tr1 -> waits_before_calls tr2 ->
  waits_before_calls (tr1 ++ tr2).
Proof.
  intros H1 H2 pre post req resp H.
  apply app_split_at in H as [(post' & -> & ->) | (pre' & -> & ->)].
  - by eapply H1.
  - destruct (H2 _ _ _ _ eq_refl) as [p ->].
    exists (tr1 ++ p). by rewrite app_assoc.
Qed.

Lemma waits_before_calls_rows (rows : list Row) :
  waits_before_calls (map (@StreamListItem Req Item Row) rows).
Proof. intros pre post req resp H. by apply no_call_in_rows in H. Qed.

Lemma waits_before_calls_wait_call (req : Req) (resp : response Item) :
  waits_before_calls ([WaitForListRateLimit; ProviderCall req resp] : trace).
Proof.
  intros pre post req' resp' H.
  destruct pre as [|e1 [|e2 pre]]; simpl in H.
  - discriminate.
  - injection H as -> _. by exists [].
  - injection H as _ _ H. destruct pre; discriminate.
Qed.

Lemma budget_exhausted (L : Z) tr :
  L <= rows_streamed tr -> budget (Some L) tr = 0.
Proof. unfold budget. lia. Qed.

End Facts.

End TraceFacts.

(** ** The rate-limited list loop *)

Module PaginatorFacts.
Import Go Sdk TraceFacts.

Section Facts.

Context {Req Item Row : Type}.
Local Abbreviation trace := (list (event Req Item Row)).

Variable RowsRemaining : trace -> Z.
Variable request : option string -> Req.
Variable row : Item -> option Row.
Variable more : option string -> string -> bool.

Local Abbreviation streamItems := (Paginator.streamItems RowsRemaining row).
Local Abbreviation paginate :=
  (Paginator.paginate RowsRemaining request row more).

(** The loop over a page only streams rows, and streams a row for every
    item when it runs to the end. *)
Lemma streamItems_shape items tr tr' fl :
  streamItems items tr = (tr', fl) ->
  exists rows, tr' = tr ++ map StreamListItem rows /\
    (fl = Continue -> map row items = map Some rows).
Proof.
  revert tr. induction items as [|i items IH]; intros tr H; simpl in H.
  - injection H as <- <-. exists []. split; [by rewrite app_nil_r | done].
  - destruct (row i) as [r|] eqn:Hr.
    + destruct (RowsRemaining _ =? 0).
      * injection H as <- <-. exists [r]. split; [done | discriminate].
      * apply IH in H as (rows & -> & Hc). exists (r :: rows). split.
        -- by rewrite <- app_assoc.
        -- intros Hf. simpl. rewrite Hr. f_equal. auto.
    + injection H as <- <-. exists [].
      split; [by rewrite app_nil_r | discriminate].
Qed.

(** With a budget that is spent after [L] rows, the loop over a page
    stops at [L] rows and runs to the end only below [L]. *)
Lemma streamItems_limit L items tr tr' fl :
  (forall t, L <= rows_streamed t -> RowsRemaining t = 0) ->
  rows_streamed tr < L ->
  streamItems items tr = (tr', fl) ->
  rows_streamed tr' <= L /\ (fl = Continue -> rows_streamed tr' < L).
Proof.
  intros HR. revert tr.
  induction items as [|i items IH]; intros tr Hlt H; simpl in H.
  - injection H as <- <-. lia.
  - destruct (row i) as [r|].
    + destruct (Z.eqb_spec (RowsRemaining (tr ++ [StreamListItem r])) 0)
        as [Hz|Hnz].
      * injection H as <- <-. rewrite rows_streamed_app. simpl.
        split; [lia | discriminate].
      * apply IH in H; [done|].
        destruct (Z_lt_le_dec (rows_streamed (tr ++ [StreamListItem r])) L)
          as [?|Hge]; [done|].
        by apply HR in Hge.
    + injection H as <- <-. split; [lia | discriminate].
Qed.

Lemma paginate_shape svc token tr tr' res :
  paginate token svc tr = (tr', res) ->
  exists new, tr' = tr ++ new /\ waits_before_calls new /\
    Forall (fun req => exists tok, req = request tok) (requests new).
Proof.
  revert token tr.
  induction svc as [items|items next rest IH|err]; intros token tr H;
    simpl in H.
  - destruct (Paginator.streamItems _ _ items _) as [tr2 fl] eqn:E.
    apply streamItems_shape in E as (rows & -> & _).
    exists ([WaitForListRateLimit;
             ProviderCall (request token) (PageOut items None)]
            ++ map StreamListItem rows).
    split; [|split].
    + destruct fl; injection H as <- _; by rewrite <- app_assoc.
    + apply waits_before_calls_app;
        [apply waits_before_calls_wait_call | apply waits_before_calls_rows].
    + rewrite requests_app, requests_rows. simpl. repeat constructor. eauto.
  - destruct (Paginator.streamItems _ _ items _) as [tr2 fl] eqn:E.
    apply streamItems_shape in E as (rows & -> & _).
    set (head := [WaitForListRateLimit;
                  ProviderCall (request token) (PageOut items (Some next))]
                 ++ map StreamListItem rows) in *.
    assert (Hhead : waits_before_calls head /\
                    Forall (fun req => exists tok, req = request tok)
                      (requests head)).
    { split.
      - apply waits_before_calls_app;
          [apply waits_before_calls_wait_call | apply waits_before_calls_rows].
      - unfold head. rewrite requests_app, requests_rows. simpl.
        repeat constructor. eauto. }
    destruct Hhead as [Hw Hr].
    destruct fl as [|o]; [destruct (more token next)|].
    + apply IH in H as (new & -> & Hw' & Hr').
      exists (head ++ new). split; [|split].
      * unfold head. by rewrite <- !app_assoc.
      * by apply waits_before_calls_app.
      * rewrite requests_app. by apply Forall_app.
    + injection H as <- _. exists head.
      split; [unfold head; by rewrite <- app_assoc | done].
    + injection H as <- _. exists head.
      split; [unfold head; by rewrite <- app_assoc | done].
  - injection H as <- _.
    exists [WaitForListRateLimit;
            ProviderCall (request token) (CallError err)].
    split; [done|]. split.
    + apply waits_before_calls_wait_call.
    + simpl. repeat constructor. eauto.
Qed.

Lemma streamItems_exit items tr tr' o :
  streamItems items tr = (tr', Exit o) -> o = Return None \/ o = Panic.
Proof.
  revert tr. induction items as [|i items IH]; intros tr H; simpl in H.
  - discriminate.
  - destruct (row i) as [r|].
    + destruct (RowsRemaining _ =? 0); [injection H as _ <-; by left | eauto].
    + injection H as _ <-. by right.
Qed.

Lemma honours_limit_page L (tr : trace) req resp (rows : list Row)
    (new : trace) :
  rows_streamed tr < L ->
  honours_limit L
    (tr ++ [WaitForListRateLimit; ProviderCall req resp]
        ++ map StreamListItem rows) new ->
  honours_limit L tr
    (([WaitForListRateLimit; ProviderCall req resp]
        ++ map StreamListItem rows) ++ new).
Proof.
  intros Hlt [Hall Hcalls]. split.
  - by rewrite app_assoc.
  - intros pre post req' resp' Heq.
    apply app_split_at in Heq as [(post' & Heq & _) | (pre' & -> & Heq)].
    + apply app_split_at in Heq as [(r' & Heq & _) | (l' & _ & Heq)].
      * destruct pre as [|e1 [|e2 pre]]; simpl in Heq.
        -- discriminate.
        -- injection Heq as <- _. rewrite rows_streamed_app. simpl. lia.
        -- injection Heq as _ _ Heq. destruct pre; discriminate.
      * by apply no_call_in_rows in Heq.
    + rewrite app_assoc. by eapply Hcalls.
Qed.

Lemma honours_limit_done L (tr : trace) :
  rows_streamed tr <= L -> honours_limit L tr [].
Proof.
  intros H. split; [by rewrite app_nil_r|].
  intros pre post req resp Heq. destruct pre; discriminate.
Qed.

(** With a budget that is spent after [L] rows, a loop entered below [L]
    rows honours the limit. *)
Lemma paginate_limit L svc token tr tr' res :
  (forall t, L <= rows_streamed t -> RowsRemaining t = 0) ->
  rows_streamed tr < L ->
  paginate token svc tr = (tr', res) ->
  exists new, tr' = tr ++ new /\ honours_limit L tr new.
Proof.
  intros HR. revert token tr.
  induction svc as [items|items next rest IH|err]; intros token tr Hlt H;
    simpl in H.
  - destruct (Paginator.streamItems _ _ items _) as [tr2 fl] eqn:E.
    pose proof E as Es. apply streamItems_shape in Es as (rows & -> & _).
    apply (streamItems_limit L) in E as [Hle _];
      [|done|rewrite rows_streamed_app; simpl; lia].
    exists (([WaitForListRateLimit;
              ProviderCall (request token) (PageOut items None)]
             ++ map StreamListItem rows) ++ []).
    split.
    + destruct fl; injection H as <- _; by rewrite app_nil_r, <- app_assoc.
    + apply honours_limit_page; [done|].
      apply honours_limit_done. by rewrite app_assoc.
  - destruct (Paginator.streamItems _ _ items _) as [tr2 fl] eqn:E.
    pose proof E as Es. apply streamItems_shape in Es as (rows & -> & _).
    apply (streamItems_limit L) in E as [Hle Hc];
      [|done|rewrite rows_streamed_app; simpl; lia].
    assert (Hstop : honours_limit L tr
              (([WaitForListRateLimit;
                 ProviderCall (request token) (PageOut items (Some next))]
                ++ map StreamListItem rows) ++ [])).
    { apply honours_limit_page; [done|].
      apply honours_limit_done. by rewrite app_assoc. }
    destruct fl as [|o]; [destruct (more token next)|].
    + apply IH in H as (new & -> & Hnew); [|by apply Hc].
      exists (([WaitForListRateLimit;
                ProviderCall (request token) (PageOut items (Some next))]
               ++ map StreamListItem rows) ++ new).
      split; [by rewrite <- !app_assoc|].
      apply honours_limit_page; [done|]. by rewrite app_assoc.
    + injection H as <- _. eexists. split; [|exact Hstop].
      by rewrite app_nil_r, <- app_assoc.
    + injection H as <- _. eexists. split; [|exact Hstop].
      by rewrite app_nil_r, <- app_assoc.
  - injection H as <- _.
    exists (([WaitForListRateLimit;
              ProviderCall (request token) (CallError err)]
             ++ map StreamListItem []) ++ []).
    split; [done|].
    apply honours_limit_page; [done|].
    apply honours_limit_done. rewrite rows_streamed_app. simpl. lia.
Qed.

(** A failing provider call ends the loop with its error, after every
    item of the earlier pages was streamed; and the loop fails in no other
    way. *)
Lemma paginate_error svc token tr tr' res :
  paginate token svc tr = (tr', res) ->
  exists new, tr' = tr ++ new /\
    (forall req e, In (ProviderCall req (CallError e)) new ->
       res = Fail e /\
       exists pre, new = pre ++ [ProviderCall req (CallError e)] /\
                   map row (fetched pre) = map Some (streamed pre)) /\
    (forall e, res = Fail e ->
       exists pre req, new = pre ++ [ProviderCall req (CallError e)]).
Proof.
  revert token tr.
  induction svc as [items|items next rest IH|err]; intros token tr H;
    simpl in H.
  - destruct (Paginator.streamItems _ _ items _) as [tr2 fl] eqn:E.
    pose proof E as Es. apply streamItems_shape in Es as (rows & -> & _).
    eexists (_ ++ map StreamListItem rows). split; [|split].
    + destruct fl; injection H as <- _; by rewrite <- app_assoc.
    + intros req e Hin. exfalso.
      apply in_app_or in Hin as [Hin|Hin].
      * simpl in Hin. destruct Hin as [?|[?|[]]]; discriminate.
      * apply in_map_iff in Hin as (r & ? & _). discriminate.
    + intros e ->. exfalso. destruct fl as [|o]; [discriminate|].
      injection H as _ ->.
      apply streamItems_exit in E as [?|?]; discriminate.
  - destruct (Paginator.streamItems _ _ items _) as [tr2 fl] eqn:E.
    pose proof E as Es. apply streamItems_shape in Es as (rows & -> & Hall).
    set (page := [WaitForListRateLimit;
                  ProviderCall (request token) (PageOut items (Some next))]
                 ++ map StreamListItem rows) in *.
    assert (Hpage : forall req e, ~ In (ProviderCall req (CallError e)) page).
    { intros req e Hin. apply in_app_or in Hin as [Hin|Hin].
      - simpl in Hin. destruct Hin as [?|[?|[]]]; discriminate.
      - apply in_map_iff in Hin as (r & ? & _). discriminate. }
    destruct fl as [|o]; [destruct (more token next)|].
    + apply IH in H as (new & -> & Herr & Hfail).
      exists (page ++ new). split; [|split].
      * unfold page. by rewrite <- !app_assoc.
      * intros req e Hin. apply in_app_or in Hin as [Hin|Hin];
          [by apply Hpage in Hin|].
        destruct (Herr _ _ Hin) as (-> & pre & -> & Hpre).
        split; [done|]. exists (page ++ pre). split; [by rewrite app_assoc|].
        unfold page. rewrite !fetched_app, !streamed_app.
        rewrite fetched_rows, streamed_rows. simpl.
        rewrite !app_nil_r, !map_app. by rewrite Hall, Hpre.
      * intros e He. destruct (Hfail _ He) as (pre & req & ->).
        exists (page ++ pre), req. by rewrite app_assoc.
    + injection H as <- <-. exists page. split; [|split].
      * unfold page. by rewrite <- app_assoc.
      * intros req e Hin. by apply Hpage in Hin.
      * discriminate.
    + injection H as <- <-. exists page. split; [|split].
      * unfold page. by rewrite <- app_assoc.
      * intros req e Hin. by apply Hpage in Hin.
      * intros e ->. apply streamItems_exit in E as [?|?]; discriminate.
  - injection H as <- <-.
    exists [WaitForListRateLimit;
            ProviderCall (request token) (CallError err)].
    split; [done|]. split.
    + intros req e Hin. simpl in Hin.
      destruct Hin as [?|[Heq|[]]]; [discriminate|].
      injection Heq as <- <-. split; [done|].
      by exists [WaitForListRateLimit].
    + intros e [= <-]. by exists [WaitForListRateLimit], (request token).
Qed.

End Facts.

End PaginatorFacts.

(** ** The list functions of the rate-limited tables *)

Module ListFacts.
Import Go Sdk TraceFacts PaginatorFacts Instances.

Lemma streamRoutes_paginator RowsRemaining api Items tr :
  APIGatewayV2Route.streamRoutes RowsRemaining api Items tr
  = Paginator.streamItems RowsRemaining (routeRow api) Items tr.
Proof.
  revert tr. induction Items as [|route Items IH]; intros tr; [done|].
  destruct api as [[id|]]; simpl in *; [by rewrite IH | done].
Qed.

Lemma getRoutesPages_paginator RowsRemaining api maxLimit token svc tr :
  APIGatewayV2Route.getRoutesPages RowsRemaining api maxLimit token svc tr
  = Paginator.paginate RowsRemaining (routesRequest api maxLimit)
      (routeRow api) (fun _ _ => true) token svc tr.
Proof.
  revert token tr.
  induction svc as [Items|Items next rest IH|err]; intros token tr; simpl;
    rewrite ?streamRoutes_paginator; try done.
  destruct (Paginator.streamItems _ _ _ _) as [tr2 [|o]]; [apply IH|done].
Qed.

Lemma streamEvents_paginator RowsRemaining Events tr :
  CloudtrailTrailEvent.streamEvents RowsRemaining Events tr
  = Paginator.streamItems RowsRemaining Some Events tr.
Proof.
  revert tr. induction Events as [|e Events IH]; intros tr; simpl; [done|].
  by rewrite IH.
Qed.

Lemma filterLogEventsPages_paginator RowsRemaining input limit token svc tr :
  CloudtrailTrailEvent.filterLogEventsPages RowsRemaining input limit token
    svc tr
  = Paginator.paginate RowsRemaining
      (CloudtrailTrailEvent.pageRequest input limit) Some
      CloudtrailTrailEvent.hasMorePages token svc tr.
Proof.
  revert token tr.
  induction svc as [Events|Events next rest IH|err]; intros token tr; simpl;
    rewrite ?streamEvents_paginator; try done.
  destruct (Paginator.streamItems _ _ _ _) as [tr2 [|o]]; [|done].
  by rewrite IH.
Qed.

(** The clamp never leaves the interval from 1 to the ceiling. *)
Lemma maxLimit_bounds C Limit : 1 <= C -> 1 <= maxLimit C Limit <= C.
Proof.
  intros HC. unfold maxLimit. destruct Limit as [l|]; [|lia].
  destruct (Z.ltb_spec (int32 l) C); [|lia].
  destruct (Z.ltb_spec (int32 l) 1); lia.
Qed.

Lemma int32_id l : is_int32 l -> int32 l = l.
Proof.
  unfold is_int32, int32. intros H.
  rewrite Z.mod_small; lia.
Qed.

Lemma maxLimit_page_size C Limit :
  1 <= C ->
  (forall l, Limit = Some l -> is_int32 l) ->
  maxLimit C Limit = page_size C Limit.
Proof.
  intros HC H. unfold maxLimit, page_size. destruct Limit as [l|]; [|done].
  rewrite int32_id by auto.
  destruct (Z.ltb_spec l C); [|lia].
  destruct (Z.ltb_spec l 1); lia.
Qed.

End ListFacts.

(** ** Row limit, page size, errors and rate limiting of the list functions *)

Module ListClaims.
Import Go Sdk TraceFacts PaginatorFacts ListFacts Instances.

Lemma map_Some_inj {A : Type} (l1 l2 : list A) :
  map Some l1 = map Some l2 -> l1 = l2.
Proof.
  revert l2. induction l1 as [|x l1 IH]; intros [|y l2] H; simpl in H;
    try done.
  injection H as -> H. f_equal. auto.
Qed.

(** C1 (amended).  For every row limit L >= 1 and a row budget that is
    spent once L rows are streamed, the two list functions that consult
    the budget, listAPIGatewayV2Routes and listCloudwatchLogTrailEvents,
    entered with fewer than L rows streamed, stream at most L rows in all
    and issue every provider call while fewer than L rows are streamed. *)
Theorem list_honours_row_limit (L : Z) :
  1 <= L ->
  (forall RowsRemaining api client tr,
     (forall t, L <= rows_streamed t -> RowsRemaining t = 0) ->
     rows_streamed tr < L ->
     exists new,
       fst (APIGatewayV2Route.listAPIGatewayV2Routes RowsRemaining (Some L)
              api client tr) = tr ++ new
       /\ honours_limit L tr new) /\
  (forall RowsRemaining iteration equalQuals quals session tr,
     (forall t, L <= rows_streamed t -> RowsRemaining t = 0) ->
     rows_streamed tr < L ->
     exists new,
       fst (CloudtrailTrailEvent.listCloudwatchLogTrailEvents RowsRemaining
              iteration (Some L) equalQuals quals session tr) = tr ++ new
       /\ honours_limit L tr new).
Proof.
  intros _. split.
  - intros RR api client tr HR Hlt.
    unfold APIGatewayV2Route.listAPIGatewayV2Routes.
    destruct client as [err| |svc]; simpl.
    + exists []. split; [by rewrite app_nil_r|]. apply honours_limit_done. lia.
    + exists []. split; [by rewrite app_nil_r|]. apply honours_limit_done. lia.
    + rewrite getRoutesPages_paginator.
      destruct (Paginator.paginate _ _ _ _ _ _ _) as [tr' res] eqn:E.
      by apply (paginate_limit _ _ _ _ L) in E.
  - intros RR iteration equalQuals quals session tr HR Hlt.
    unfold CloudtrailTrailEvent.listCloudwatchLogTrailEvents.
    destruct session as [err|svc]; simpl.
    + exists []. split; [by rewrite app_nil_r|]. apply honours_limit_done. lia.
    + rewrite filterLogEventsPages_paginator.
      destruct (Paginator.paginate _ _ _ _ _ _ _) as [tr' res] eqn:E.
      by apply (paginate_limit _ _ _ _ L) in E.
Qed.

Lemma list_honours_row_limit_witness :
  (exists new,
     fst (APIGatewayV2Route.listAPIGatewayV2Routes (budget (Some 2)) (Some 2)
            Examples.api (Client Examples.three_routes) []) = [] ++ new
     /\ honours_limit 2 [] new) /\
  (exists new,
     fst (CloudtrailTrailEvent.listCloudwatchLogTrailEvents
            (budget (Some 2)) CloudtrailTrailEvent.filterQuals (Some 2)
            Examples.trail_quals ∅ (Service Examples.three_events) [])
     = [] ++ new
     /\ honours_limit 2 [] new).
Proof.
  destruct (list_honours_row_limit 2 ltac:(lia)) as [HRoutes HTrail]. split.
  - apply HRoutes; [apply budget_exhausted | simpl; lia].
  - apply HTrail; [apply budget_exhausted | simpl; lia].
Defined.

(** The run behind the witness: two rows are streamed by one call. *)
Example routes_limit_two :
  map is_call
    (fst (APIGatewayV2Route.listAPIGatewayV2Routes (budget (Some 2)) (Some 2)
            Examples.api (Client Examples.three_routes) []))
  = [false; true; false; false].
Proof. vm_compute. reflexivity. Qed.

(** C1 as stated fails twice.  With the limit 0 the routes list still
    issues a call, with no fewer than 0 rows streamed, and hands a row to
    the engine; and listLambdaAliases, which never consults the row
    budget, streams three rows under the limit 1 and issues its second
    call after two of them. *)
Lemma list_limit_counterexample :
  (let tr :=
     fst (APIGatewayV2Route.listAPIGatewayV2Routes (budget (Some 0))
            (Some 0) Examples.api (Client Examples.one_route) []) in
   ~ honours_limit 0 [] tr
   /\ rows_streamed tr = 1
   /\ exists pre post req resp,
        tr = pre ++ ProviderCall req resp :: post /\ 0 <= rows_streamed pre)
  /\
  (let tr :=
     fst (LambdaAlias.listLambdaAliases Examples.function
            (Service Examples.three_aliases) []) in
   ~ honours_limit 1 [] tr
   /\ rows_streamed tr = 3
   /\ map is_call tr = [true; false; false; true; false]
   /\ exists pre post req resp,
        tr = pre ++ ProviderCall req resp :: post /\ rows_streamed pre = 2).
Proof.
  split.
  - split; [|split].
    + intros [H _]. vm_compute in H. by apply H.
    + vm_compute. reflexivity.
    + eexists [WaitForListRateLimit], _, _, _. split; [vm_compute; reflexivity|].
      simpl. lia.
  - split; [|split; [|split]].
    + intros [H _]. vm_compute in H. by apply H.
    + vm_compute. reflexivity.
    + vm_compute. reflexivity.
    + eexists
        (firstn 3
           (fst (LambdaAlias.listLambdaAliases Examples.function
                   (Service Examples.three_aliases) []))), _, _, _.
      split; vm_compute; reflexivity.
Qed.

(** C3.  When a provider call of listAPIGatewayV2Routes or of
    listCloudwatchLogTrailEvents fails, the events recorded before it stay
    in the trace, every item of the pages fetched before it has been
    streamed, the failing call is the last event and the function returns
    that error; a function that returns without error issued no failing
    call. *)
Theorem list_error_is_returned :
  (forall RowsRemaining Limit api client tr,
     let run :=
       APIGatewayV2Route.listAPIGatewayV2Routes RowsRemaining Limit api
         client tr in
     exists new, fst run = tr ++ new /\
       (forall req e, In (ProviderCall req (CallError e)) new ->
          snd run = Fail e /\
          exists pre, new = pre ++ [ProviderCall req (CallError e)] /\
            map (routeRow api) (fetched pre) = map Some (streamed pre)) /\
       (forall v, snd run = Return v ->
          forall req e, ~ In (ProviderCall req (CallError e)) new)) /\
  (forall RowsRemaining iteration Limit equalQuals quals session tr,
     let run :=
       CloudtrailTrailEvent.listCloudwatchLogTrailEvents RowsRemaining
         iteration Limit equalQuals quals session tr in
     exists new, fst run = tr ++ new /\
       (forall req e, In (ProviderCall req (CallError e)) new ->
          snd run = Fail e /\
          exists pre, new = pre ++ [ProviderCall req (CallError e)] /\
            fetched pre = streamed pre) /\
       (forall v, snd run = Return v ->
          forall req e, ~ In (ProviderCall req (CallError e)) new)).
Proof.
  split.
  - intros RR Limit api client tr run. subst run.
    unfold APIGatewayV2Route.listAPIGatewayV2Routes.
    destruct client as [err| |svc]; simpl.
    + exists []. split; [by rewrite app_nil_r|]. split; [intros ? ? []|].
      intros ? _ ? ? [].
    + exists []. split; [by rewrite app_nil_r|]. split; [intros ? ? []|].
      intros ? _ ? ? [].
    + rewrite getRoutesPages_paginator.
      destruct (Paginator.paginate _ _ _ _ _ _ _) as [tr' res] eqn:E.
      apply paginate_error in E as (new & -> & Herr & _).
      exists new. simpl. split; [done|]. split; [done|].
      intros v -> req e Hin. by destruct (Herr _ _ Hin) as [? _].
  - intros RR iteration Limit equalQuals quals session tr run. subst run.
    unfold CloudtrailTrailEvent.listCloudwatchLogTrailEvents.
    destruct session as [err|svc]; simpl.
    + exists []. split; [by rewrite app_nil_r|]. split; [intros ? ? []|].
      intros ? _ ? ? [].
    + rewrite filterLogEventsPages_paginator.
      destruct (Paginator.paginate _ _ _ _ _ _ _) as [tr' res] eqn:E.
      apply paginate_error in E as (new & -> & Herr & _).
      exists new. simpl. split; [done|]. split.
      * intros req e Hin. destruct (Herr _ _ Hin) as (-> & pre & -> & Hpre).
        split; [done|]. exists pre. split; [done|]. by apply map_Some_inj.
      * intros v -> req e Hin. by destruct (Herr _ _ Hin) as [? _].
Qed.

(** A run in which the second GetRoutes call is throttled: both routes of
    the first page are streamed and the error is returned. *)
Example routes_second_call_fails :
  let run :=
    APIGatewayV2Route.listAPIGatewayV2Routes (budget None) None Examples.api
      (Client Examples.routes_then_failure) [] in
  snd run = Fail Examples.throttled
  /\ map (fun r => APIGatewayV2Route.RouteId <$>
                     APIGatewayV2Route.RouteInfo_GetRouteOutput r)
       (streamed (fst run))
     = [Some (Some "r1"); Some (Some "r2")]%string
  /\ map is_call (fst run) = [false; true; false; false; false; true].
Proof. vm_compute. done. Qed.

(** C4 (amended).  For a caller limit that fits [int32], every request of
    a scan carries the same page size, computed once from the initial
    limit: the ceiling (500 routes, 10000 log events) lowered to the limit
    and never below 1; it is the ceiling when there is no limit or the
    limit is at least the ceiling, and 1 when the limit is below 1. *)
Theorem page_size_is_clamped_initial_limit (Limit : option Z) :
  (forall l, Limit = Some l -> is_int32 l) ->
  (forall C, 1 <= C ->
     maxLimit C Limit = page_size C Limit /\
     1 <= maxLimit C Limit <= C /\
     (Limit = None -> maxLimit C Limit = C) /\
     (forall l, Limit = Some l -> l < 1 -> maxLimit C Limit = 1) /\
     (forall l, Limit = Some l -> C <= l -> maxLimit C Limit = C)) /\
  (forall RowsRemaining api client tr,
     exists new,
       fst (APIGatewayV2Route.listAPIGatewayV2Routes RowsRemaining Limit api
              client tr) = tr ++ new /\
       Forall (fun req => APIGatewayV2Route.MaxResults req
                          = Some (pretty (page_size 500 Limit)))
         (requests new)) /\
  (forall RowsRemaining iteration equalQuals quals session tr,
     exists new,
       fst (CloudtrailTrailEvent.listCloudwatchLogTrailEvents RowsRemaining
              iteration Limit equalQuals quals session tr) = tr ++ new /\
       Forall (fun req => CloudtrailTrailEvent.Limit req
                          = Some (page_size 10000 Limit))
         (requests new)).
Proof.
  intros Hint. split; [|split].
  - intros C HC. rewrite maxLimit_page_size by done.
    unfold page_size. destruct Limit as [l|].
    + repeat split; try lia; try done; intros l' [= <-] ?; lia.
    + repeat split; try lia; try done.
  - intros RR api client tr.
    unfold APIGatewayV2Route.listAPIGatewayV2Routes.
    destruct client as [err| |svc]; simpl.
    + exists []. split; [by rewrite app_nil_r | constructor].
    + exists []. split; [by rewrite app_nil_r | constructor].
    + rewrite getRoutesPages_paginator.
      destruct (Paginator.paginate _ _ _ _ _ _ _) as [tr' res] eqn:E.
      apply paginate_shape in E as (new & -> & _ & Hreq).
      exists new. split; [done|].
      eapply Forall_impl; [exact Hreq|].
      intros req [tok ->]. simpl.
      rewrite (maxLimit_page_size APIGatewayV2Route.ceiling) by done.
      done.
  - intros RR iteration equalQuals quals session tr.
    unfold CloudtrailTrailEvent.listCloudwatchLogTrailEvents.
    destruct session as [err|svc]; simpl.
    + exists []. split; [by rewrite app_nil_r | constructor].
    + rewrite filterLogEventsPages_paginator.
      destruct (Paginator.paginate _ _ _ _ _ _ _) as [tr' res] eqn:E.
      apply paginate_shape in E as (new & -> & _ & Hreq).
      exists new. split; [done|].
      eapply Forall_impl; [exact Hreq|].
      intros req [tok ->]. simpl.
      pose proof (maxLimit_bounds CloudtrailTrailEvent.ceiling Limit
                    ltac:(done)) as [Hlo _].
      destruct (Z.ltb_spec 0 (maxLimit CloudtrailTrailEvent.ceiling Limit));
        [|lia].
      by rewrite (maxLimit_page_size CloudtrailTrailEvent.ceiling).
Qed.

Lemma page_size_is_clamped_initial_limit_witness :
  maxLimit 500 (Some 3) = 3 /\
  exists new,
    fst (APIGatewayV2Route.listAPIGatewayV2Routes (budget (Some 3)) (Some 3)
           Examples.api (Client Examples.three_routes) []) = [] ++ new /\
    Forall (fun req => APIGatewayV2Route.MaxResults req = Some "3"%string)
      (requests new).
Proof.
  assert (Hint : forall l, Some 3 = Some l -> is_int32 l).
  { intros l [= <-]. unfold is_int32. lia. }
  destruct (page_size_is_clamped_initial_limit (Some 3) Hint)
    as (Hclamp & Hroutes & _).
  split.
  - destruct (Hclamp 500 ltac:(lia)) as [-> _]. reflexivity.
  - apply Hroutes.
Defined.

(** C4 as stated fails: on the second page of a scan with limit 3 one row
    remains in the budget, yet the request asks for 3 again; and a limit
    of 2^31, above every ceiling, wraps to a negative [int32] and leaves
    the page size 1. *)
Lemma page_size_counterexample :
  (exists pre post req resp,
     fst (APIGatewayV2Route.listAPIGatewayV2Routes (budget (Some 3)) (Some 3)
            Examples.api (Client Examples.three_routes) [])
     = pre ++ ProviderCall req resp :: post
     /\ budget (Some 3) pre = 1
     /\ APIGatewayV2Route.MaxResults req = Some "3"%string
     /\ APIGatewayV2Route.MaxResults req
        <> Some (pretty (Z.min 500 (budget (Some 3) pre))))
  /\ maxLimit 500 (Some (2 ^ 31)) = 1.
Proof.
  split; [|vm_compute; reflexivity].
  eexists (firstn 5
             (fst (APIGatewayV2Route.listAPIGatewayV2Routes
                     (budget (Some 3)) (Some 3) Examples.api
                     (Client Examples.three_routes) []))),
    _, _, _.
  split; [vm_compute; reflexivity|].
  split; [vm_compute; reflexivity|].
  split; [vm_compute; reflexivity|].
  vm_compute. discriminate.
Qed.

End ListClaims.

(** ** The rate limiter *)

Module RateLimitClaims.
Import Go Sdk TraceFacts PaginatorFacts ListFacts RateLimiter.

(** A wait followed by at most one call. *)
Lemma gated_calls_wait_one {Call : Type} (Tags : list (string * string))
    (calls : list Call) :
  (length calls <= 1)%nat ->
  gated_calls_wait Tags (RateLimitWait Tags :: map TaggedCall calls).
Proof.
  intros Hlen pre post c H.
  destruct calls as [|c1 [|c2 calls]]; simpl in *; [| |lia].
  - destruct pre as [|e1 [|e2 pre]]; discriminate.
  - destruct pre as [|e1 [|e2 pre]]; simpl in H.
    + discriminate.
    + injection H as -> _. by exists [].
    + injection H as _ _ H. destruct pre; discriminate.
Qed.

(** [getAPIGatewayV2Route] issues at most one provider call. *)
Lemma getAPIGatewayV2Route_calls EqualsQuals client :
  (length (APIGatewayV2Route.getAPIGatewayV2Route EqualsQuals client []).1
   <= 1)%nat.
Proof.
  destruct client as [err| |svc]; simpl; [lia|lia|].
  by destruct (svc _) as [[item|]|err].
Qed.



End RateLimitClaims.

(** ** The row items of aws_cloudfront_origin_access_identity *)

Module CloudFrontFacts.
Import Go Sdk TraceFacts Instances.
Import CloudFrontOriginAccessIdentity.

Lemma streamIdentities_streamed identities tr :
  streamed (streamIdentities identities tr)
  = streamed tr ++ map SummaryItem identities.
Proof.
  revert tr. induction identities as [|oai identities IH]; intros tr; simpl.
  - by rewrite app_nil_r.
  - rewrite IH, streamed_app. simpl. by rewrite <- app_assoc.
Qed.

Lemma ListPages_streamed svc tr :
  exists identities,
    streamed (ListCloudFrontOriginAccessIdentitiesPages svc tr).1
    = streamed tr ++ map SummaryItem identities.
Proof.
  revert tr. induction svc as [page|page marker rest IH|err]; intros tr;
    simpl; unfold callback.
  - destruct (CloudFrontOriginAccessIdentityList page) as [l|]; simpl.
    + exists (Items l). rewrite streamIdentities_streamed, streamed_app.
      simpl. by rewrite app_nil_r.
    + exists []. rewrite streamed_app. simpl. by rewrite !app_nil_r.
  - destruct (CloudFrontOriginAccessIdentityList page) as [l|]; simpl.
    + edestruct IH as [identities' Hrest]. rewrite Hrest.
      exists (Items l ++ identities').
      rewrite streamIdentities_streamed, streamed_app. simpl.
      by rewrite app_nil_r, map_app, app_assoc.
    + exists []. rewrite streamed_app. simpl. by rewrite !app_nil_r.
  - exists []. rewrite streamed_app. simpl. by rewrite !app_nil_r.
Qed.

(** X15.  Every row the list function streams is a summary, and every item the
    Get function returns is a Get output: the rows of the table are of
    the two variants the type switch of [originAccessIdentityID] knows. *)
Lemma rows_are_known_variants :
  (forall session tr,
     Forall (fun r => known_variant r = true) (streamed tr) ->
     Forall (fun r => known_variant r = true)
       (streamed (listCloudFrontOriginAccessIdentities session tr).1)) /\
  (forall item KeyColumnQuals session tr it,
     (getCloudFrontOriginAccessIdentity item KeyColumnQuals session tr).2
     = Return it ->
     known_variant it = true).
Proof.
  split.
  - intros [err|svc] tr Htr; simpl; [done|].
    destruct (ListPages_streamed svc tr) as [identities HItems].
    destruct (ListCloudFrontOriginAccessIdentitiesPages svc tr)
      as [tr' [[]|err|]]; simpl in *; rewrite HItems;
      (apply Forall_app; split; [done|]);
      apply Forall_forall; intros r Hr;
      apply list_elem_of_In, in_map_iff in Hr as (s & <- & _); done.
  - intros item quals [err|svc] tr it; simpl; [done|].
    destruct item as [[o|s|]|]; simpl; try done.
    + destruct (Id s) as [id|]; [|done].
      destruct (svc (Some id)); simpl; [|done]. by intros [= <-].
    + destruct (svc _); simpl; [|done]. by intros [= <-].
Qed.

End CloudFrontFacts.

(** ** The list functions that page through the SDK callback *)

Module CallbackListFacts.
Import Go Sdk TraceFacts.

Lemma streamAliases_shape function Aliases (tr : LambdaAlias.trace) :
  LambdaAlias.streamAliases function Aliases tr
  = tr ++ map (fun alias =>
                 StreamListItem
                   {| LambdaAlias.Alias := Some alias;
                      LambdaAlias.aliasRowData_FunctionName :=
                        LambdaAlias.FunctionName function |}) Aliases.
Proof.
  revert tr. induction Aliases as [|alias Aliases IH]; intros tr; simpl.
  - by rewrite app_nil_r.
  - by rewrite IH, <- app_assoc.
Qed.

Lemma streamIdentities_shape identities
    (tr : CloudFrontOriginAccessIdentity.trace) :
  CloudFrontOriginAccessIdentity.streamIdentities identities tr
  = tr ++ map (fun oai =>
                 StreamListItem (CloudFrontOriginAccessIdentity.SummaryItem oai))
        identities.
Proof.
  revert tr. induction identities as [|oai identities IH]; intros tr; simpl.
  - by rewrite app_nil_r.
  - by rewrite IH, <- app_assoc.
Qed.

(** Closes the case of a page without a failing call. *)
Local Ltac no_failing_call Hin :=
  exfalso; apply in_app_or in Hin as [[Hin|[]]|Hin];
  [discriminate | apply in_map_iff in Hin as (? & ? & _); discriminate].

(** listLambdaAliases and listCloudFrontOriginAccessIdentities return the
    error of a failing provider call as well. *)
Lemma callback_list_error_is_returned :
  (forall function session tr,
     let run := LambdaAlias.listLambdaAliases function session tr in
     exists new, run.1 = tr ++ new /\
       forall req e, In (ProviderCall req (CallError e)) new ->
                     run.2 = Fail e) /\
  (forall session tr,
     let run :=
       CloudFrontOriginAccessIdentity.listCloudFrontOriginAccessIdentities
         session tr in
     exists new, run.1 = tr ++ new /\
       forall req e, In (ProviderCall req (CallError e)) new ->
                     run.2 = Fail e).
Proof.
  split.
  - intros function [err|svc] tr run; subst run; simpl.
    { exists []. split; [by rewrite app_nil_r | intros ? ? []]. }
    assert (H : forall marker tr,
              exists new,
                (LambdaAlias.ListAliasesPages function marker svc tr).1
                = tr ++ new /\
                forall req e, In (ProviderCall req (CallError e)) new ->
                  (LambdaAlias.ListAliasesPages function marker svc tr).2
                  = Some e).
    { clear tr. induction svc as [Aliases|Aliases next rest IH|err];
        intros marker tr; simpl.
      - rewrite streamAliases_shape, <- app_assoc. eexists. split; [done|].
        intros req e Hin. no_failing_call Hin.
      - rewrite streamAliases_shape.
        set (call := ProviderCall _ _). set (rows := map _ Aliases).
        destruct (IH (Some next) ((tr ++ [call]) ++ rows))
          as (new & Hnew & Herr).
        exists ([call] ++ rows ++ new). split.
        { rewrite Hnew. by rewrite <- !app_assoc. }
        intros req e Hin. apply in_app_or in Hin as [[Hin|[]]|Hin];
          [discriminate|].
        apply in_app_or in Hin as [Hin|Hin]; [|by eapply Herr].
        apply in_map_iff in Hin as (? & ? & _). discriminate.
      - eexists. split; [done|].
        intros req e [Hin|[]]. by injection Hin as _ ->. }
    destruct (H None tr) as (new & Hnew & Herr).
    destruct (LambdaAlias.ListAliasesPages function None svc tr)
      as [tr' [err|]]; simpl in *; exists new; (split; [done|]);
      intros req e Hin; apply Herr in Hin; congruence.
  - intros [err|svc] tr run; subst run; simpl.
    { exists []. split; [by rewrite app_nil_r | intros ? ? []]. }
    assert (H : forall tr,
              exists new,
                (CloudFrontOriginAccessIdentity.ListCloudFrontOriginAccessIdentitiesPages
                   svc tr).1 = tr ++ new /\
                forall req e, In (ProviderCall req (CallError e)) new ->
                  (CloudFrontOriginAccessIdentity.ListCloudFrontOriginAccessIdentitiesPages
                     svc tr).2 = Fail e).
    { clear tr. induction svc as [page|page marker rest IH|err];
        intros tr; simpl; unfold CloudFrontOriginAccessIdentity.callback.
      - destruct (CloudFrontOriginAccessIdentity.CloudFrontOriginAccessIdentityList
                    page) as [l|]; simpl.
        + rewrite streamIdentities_shape, <- app_assoc. eexists.
          split; [done|]. intros req e Hin. no_failing_call Hin.
        + eexists. split; [done|]. intros req e [Hin|[]]. discriminate.
      - destruct (CloudFrontOriginAccessIdentity.CloudFrontOriginAccessIdentityList
                    page) as [l|]; simpl.
        + rewrite streamIdentities_shape.
          set (call := ProviderCall _ _). set (rows := map _ _).
          destruct (IH ((tr ++ [call]) ++ rows)) as (new & Hnew & Herr).
          exists ([call] ++ rows ++ new). split.
          { rewrite Hnew. by rewrite <- !app_assoc. }
          intros req e Hin. apply in_app_or in Hin as [[Hin|[]]|Hin];
            [discriminate|].
          apply in_app_or in Hin as [Hin|Hin]; [|by eapply Herr].
          apply in_map_iff in Hin as (? & ? & _). discriminate.
        + eexists. split; [done|]. intros req e [Hin|[]]. discriminate.
      - eexists. split; [done|].
        intros req e [Hin|[]]. by injection Hin as _ ->. }
    destruct (H tr) as (new & Hnew & Herr).
    destruct (CloudFrontOriginAccessIdentity.ListCloudFrontOriginAccessIdentitiesPages
                svc tr)
      as [tr' [[]|err|]]; simpl in *; exists new; (split; [done|]);
      intros req e Hin; apply Herr in Hin; congruence.
Qed.

End CallbackListFacts.

(** ** Get and hydrate functions *)

Module GetClaims.
Import Go Sdk Instances.

Lemma missing_or_empty_string quals key :
  missing_or_empty quals key -> GetStringValue (quals !! key) = EmptyString.
Proof. by intros [-> | ->]. Qed.

(** C5 (amended).  A Get request on aws_lambda_alias in which name or
    function_name is missing or empty, or whose region key differs from
    the current matrix region (as a missing or empty region key does when
    the matrix region is a region name), makes getLambdaAlias return no
    row and no error without any provider call. *)
Theorem lambda_alias_get_needs_keys matrixRegion
    (KeyColumnQuals : gmap string QualValue) session tr :
  missing_or_empty KeyColumnQuals "name"
  \/ missing_or_empty KeyColumnQuals "function_name"
  \/ GetStringValue (KeyColumnQuals !! "region"%string) <> matrixRegion
  \/ (missing_or_empty KeyColumnQuals "region" /\ matrixRegion <> EmptyString) ->
  LambdaAlias.getLambdaAlias matrixRegion KeyColumnQuals session tr
  = (tr, Return None).
Proof.
  intros H. unfold LambdaAlias.getLambdaAlias.
  destruct H as [H | [H | [H | [H Hne]]]].
  - apply missing_or_empty_string in H. by rewrite H.
  - apply missing_or_empty_string in H. rewrite H.
    by rewrite orb_true_r.
  - apply String.eqb_neq in H. rewrite H. by rewrite !orb_true_r.
  - apply missing_or_empty_string in H. rewrite H.
    assert (Hr : (EmptyString =? matrixRegion)%string = false).
    { apply String.eqb_neq. congruence. }
    rewrite Hr. by rewrite !orb_true_r.
Qed.

Lemma lambda_alias_get_needs_keys_witness :
  LambdaAlias.getLambdaAlias "us-east-1" Examples.alias_quals_empty_name
    (Service Examples.alias_never_found) []
  = ([], Return None).
Proof.
  apply lambda_alias_get_needs_keys. left. right. reflexivity.
Defined.

(** C5 as stated fails outside aws_lambda_alias: getAPIGatewayV2Route has
    no empty check, so a Get request with an empty route_id still calls
    GetRoute, and the provider's error is returned. *)
Lemma get_with_empty_key_counterexample :
  missing_or_empty Examples.route_quals_empty_id "route_id"
  /\ APIGatewayV2Route.getAPIGatewayV2Route Examples.route_quals_empty_id
       (Client Examples.route_never_found) []
     = ([({| APIGatewayV2Route.GetRouteInput_ApiId := Some "a1b2"%string;
              APIGatewayV2Route.GetRouteInput_RouteId := Some ""%string |},
          APIGatewayV2Route.GetRouteError
            (AwsError "NotFoundException" "Invalid Route identifier"))],
        Fail (AwsError "NotFoundException" "Invalid Route identifier")).
Proof. split; [right; reflexivity | reflexivity]. Qed.

(** C6.  When the API Gateway client resolves to nil, as it does for a
    region that does not support the service, the List and the Get
    function of aws_api_gatewayv2_route return no row and no error and
    record no event: no wait, no provider call, no row. *)
Theorem unsupported_region_is_skipped :
  (forall RowsRemaining Limit api tr,
     APIGatewayV2Route.listAPIGatewayV2Routes RowsRemaining Limit api
       ClientNil tr = (tr, Return None)) /\
  (forall EqualsQuals tr,
     APIGatewayV2Route.getAPIGatewayV2Route EqualsQuals ClientNil tr
     = (tr, Return None)).
Proof. split; reflexivity. Qed.

(** C9 (amended).  originAccessIdentityID returns nil for an item of any
    other type and getCloudFrontOriginAccessIdentityARN dereferences that
    result, so it panics on such an item.  For an item that is one of the
    two known variants and whose identity pointers are set, the type
    switch returns that identity and the ARN hydrate does not panic: it
    returns the error of getCommonColumns or the assembled ARN. *)
Theorem arn_hydrate_total_on_identified_items item id :
  identityId item = Some id ->
  CloudFrontOriginAccessIdentity.originAccessIdentityID
    CloudFrontOriginAccessIdentity.OtherItem = Return None
  /\ (forall c,
        CloudFrontOriginAccessIdentity.getCloudFrontOriginAccessIdentityARN
          CloudFrontOriginAccessIdentity.OtherItem c = Panic)
  /\ known_variant item = true
  /\ CloudFrontOriginAccessIdentity.originAccessIdentityID item
     = Return (Some id)
  /\ (forall c,
        CloudFrontOriginAccessIdentity.getCloudFrontOriginAccessIdentityARN
          item (Return c) = Return (identityArn c id))
  /\ (forall err,
        CloudFrontOriginAccessIdentity.getCloudFrontOriginAccessIdentityARN
          item (Fail err) = Fail err).
Proof.
  intros Hid. split; [done|]. split; [done|].
  unfold CloudFrontOriginAccessIdentity.getCloudFrontOriginAccessIdentityARN.
  destruct item as [o|s|]; simpl in *; [| |done].
  - destruct (CloudFrontOriginAccessIdentity.CloudFrontOriginAccessIdentity o)
      as [oai|]; [|done].
    rewrite Hid. done.
  - rewrite Hid. done.
Qed.

Lemma arn_hydrate_total_on_identified_items_witness :
  CloudFrontOriginAccessIdentity.getCloudFrontOriginAccessIdentityARN
    (CloudFrontOriginAccessIdentity.SummaryItem Examples.summary_with_id)
    (Return Examples.common_columns)
  = Return
      "arn:aws:cloudfront::123456789012:origin-access-identity/E74FTE3AEXAMPLE"%string.
Proof.
  destruct (arn_hydrate_total_on_identified_items
              (CloudFrontOriginAccessIdentity.SummaryItem
                 Examples.summary_with_id)
              "E74FTE3AEXAMPLE" eq_refl)
    as (_ & _ & _ & _ & Harn & _).
  exact (Harn Examples.common_columns).
Defined.

(** C9 as stated fails: a summary item, one of the two variants, whose
    [Id] pointer is nil makes the ARN hydrate dereference nil. *)
Lemma arn_hydrate_counterexample :
  known_variant
    (CloudFrontOriginAccessIdentity.SummaryItem Examples.summary_without_id)
  = true
  /\ CloudFrontOriginAccessIdentity.getCloudFrontOriginAccessIdentityARN
       (CloudFrontOriginAccessIdentity.SummaryItem
          Examples.summary_without_id)
       (Return Examples.common_columns)
     = Panic.
Proof. split; reflexivity. Qed.

(** C10.  For an alias row whose pointers are set, getLambdaAliasPolicy
    issues one GetPolicy call; when it fails with the code
    ResourceNotFoundException the function returns an empty
    GetPolicyOutput value, whose Policy is nil, and no error; every other
    GetPolicy error is returned to the caller. *)
Theorem alias_policy_not_found_is_empty alias svc tr functionName a name :
  LambdaAlias.aliasRowData_FunctionName alias = Some functionName ->
  LambdaAlias.Alias alias = Some a ->
  LambdaAlias.AliasName a = Some name ->
  let input :=
    {| LambdaAlias.GetPolicyInput_FunctionName := Some functionName;
       LambdaAlias.Qualifier := Some name |} in
  let run := LambdaAlias.getLambdaAliasPolicy alias (Service svc) tr in
  fst run = tr ++ [(input, svc input)]
  /\ (forall err, svc input = LambdaAlias.CallErr err ->
        error_code err = Some "ResourceNotFoundException"%string ->
        snd run = Return (LambdaAlias.ByValue LambdaAlias.emptyGetPolicyOutput))
  /\ (forall err, svc input = LambdaAlias.CallErr err ->
        error_code err <> Some "ResourceNotFoundException"%string ->
        snd run = Fail err)
  /\ LambdaAlias.Policy LambdaAlias.emptyGetPolicyOutput = None.
Proof.
  intros Hfn Ha Hname input run. subst run.
  unfold LambdaAlias.getLambdaAliasPolicy. rewrite Hfn, Ha, Hname.
  fold input. destruct (svc input) as [op|err] eqn:E.
  - simpl. split; [done|]. split; [discriminate|]. split; [discriminate|done].
  - split; [|split; [|split; [|done]]].
    + destruct err as [code msg|msg]; [|done].
      by destruct (code =? "ResourceNotFoundException")%string.
    + intros err' [= <-] Hcode. destruct err as [code msg|msg]; [|done].
      simpl in Hcode. injection Hcode as ->. done.
    + intros err' [= <-] Hcode. destruct err as [code msg|msg]; [|done].
      destruct (String.eqb_spec code "ResourceNotFoundException") as [->|Hne];
        [by destruct Hcode | done].
Qed.

Lemma alias_policy_not_found_is_empty_witness :
  LambdaAlias.getLambdaAliasPolicy Examples.alias_row
    (Service Examples.policy_never_found) []
  = ([({| LambdaAlias.GetPolicyInput_FunctionName := Some "fn"%string;
           LambdaAlias.Qualifier := Some "live"%string |},
       LambdaAlias.CallErr Examples.not_found)],
     Return (LambdaAlias.ByValue LambdaAlias.emptyGetPolicyOutput))
  /\ snd (LambdaAlias.getLambdaAliasPolicy Examples.alias_row
            (Service Examples.policy_denied) [])
     = Fail (AwsError "AccessDeniedException" "denied").
Proof.
  destruct (alias_policy_not_found_is_empty Examples.alias_row
              Examples.policy_never_found [] "fn" (Examples.alias "live")
              "live" eq_refl eq_refl eq_refl)
    as (Hfst & Hnf & _ & _).
  destruct (alias_policy_not_found_is_empty Examples.alias_row
              Examples.policy_denied [] "fn" (Examples.alias "live")
              "live" eq_refl eq_refl eq_refl)
    as (_ & _ & Hother & _).
  split.
  - apply injective_projections; [exact Hfst|].
    exact (Hnf Examples.not_found eq_refl eq_refl).
  - apply Hother; [reflexivity | discriminate].
Defined.

End GetClaims.

(** ** Predicate pushdown of aws_cloudtrail_trail_event *)

Module PushdownClaims.
Import Go Sdk Instances.
Import CloudtrailTrailEvent.

Section Filter.

Variable equalQuals : gmap string QualValue.

Local Abbreviation step :=
  (fun (filters : list string) (entry : string * string) =>
     match equalQuals !! entry.1 with
     | Some _ =>
         filters ++
         [filterExpression entry.2 (GetStringValue (equalQuals !! entry.1))]
     | None => filters
     end).

(** What the loop of [buildQueryFilter] adds to the filters it starts
    from. *)
Lemma buildQueryFilter_fold iteration filters f :
  In f (fold_left step iteration filters) <->
  In f filters \/
  exists qual filterKey v,
    In (qual, filterKey) iteration /\ equalQuals !! qual = Some v /\
    f = filterExpression filterKey (GetStringValue (Some v)).
Proof.
  revert filters.
  induction iteration as [|[qual filterKey] iteration IH]; intros filters;
    simpl.
  - split; [by left | intros [?|(? & ? & ? & [] & _)]; done].
  - rewrite IH. destruct (equalQuals !! qual) as [v|] eqn:Hq; split.
    + intros [Hin|(q & k & w & Hin & Hw & ->)].
      * apply in_app_or in Hin as [Hin|[<-|[]]]; [by left|].
        right. exists qual, filterKey, v. by repeat split; [left|..].
      * right. exists q, k, w. by repeat split; [right|..].
    + intros [Hin|(q & k & w & [Heq|Hin] & Hw & ->)].
      * left. apply in_or_app. by left.
      * injection Heq as <- <-. left. apply in_or_app. right. left.
        by rewrite Hq in Hw; injection Hw as ->.
      * right. exists q, k, w. done.
    + intros [Hin|(q & k & w & Hin & Hw & ->)]; [by left|].
      right. exists q, k, w. by repeat split; [right|..].
    + intros [Hin|(q & k & w & [Heq|Hin] & Hw & ->)]; [by left| |].
      * injection Heq as <- <-. congruence.
      * right. exists q, k, w. done.
Qed.

End Filter.

(** The filters depend only on the predicates of the iterated columns. *)
Lemma buildQueryFilter_agree_from iteration (eq1 eq2 : gmap string QualValue)
    (filters : list string) :
  (forall col, In col (map fst iteration) -> eq1 !! col = eq2 !! col) ->
  fold_left
    (fun (filters : list string) (entry : string * string) =>
       match eq1 !! entry.1 with
       | Some _ =>
           filters ++
           [filterExpression entry.2 (GetStringValue (eq1 !! entry.1))]
       | None => filters
       end) iteration filters
  = fold_left
      (fun (filters : list string) (entry : string * string) =>
         match eq2 !! entry.1 with
         | Some _ =>
             filters ++
             [filterExpression entry.2 (GetStringValue (eq2 !! entry.1))]
         | None => filters
         end) iteration filters.
Proof.
  revert filters.
  induction iteration as [|[qual filterKey] iteration IH]; intros filters H;
    simpl; [done|].
  rewrite (H qual) by (by left).
  apply IH. intros col Hin. apply H. by right.
Qed.

Lemma buildQueryFilter_agree iteration (eq1 eq2 : gmap string QualValue) :
  (forall col, In col (map fst iteration) -> eq1 !! col = eq2 !! col) ->
  buildQueryFilter iteration eq1 = buildQueryFilter iteration eq2.
Proof. apply buildQueryFilter_agree_from. Qed.

Lemma timestampQual_unhandled input q :
  handled_operator (Operator q) = false -> timestampQual input q = input.
Proof.
  unfold handled_operator, timestampQual. intros H.
  destruct (Operator q =? "=")%string; [done|].
  destruct (Operator q =? ">=")%string; [done|].
  destruct (Operator q =? ">")%string; [done|].
  destruct (Operator q =? "<")%string; [done|].
  destruct (Operator q =? "<=")%string; done.
Qed.

Lemma timestampQuals_handled qs input :
  fold_left timestampQual
    (List.filter (fun q => handled_operator (Operator q)) qs) input
  = fold_left timestampQual qs input.
Proof.
  revert input. induction qs as [|q qs IH]; intros input; simpl; [done|].
  destruct (handled_operator (Operator q)) eqn:Hq; simpl; [apply IH|].
  rewrite IH. by rewrite timestampQual_unhandled.
Qed.

(** C7.  The filter expressions of buildQueryFilter are exactly the
    equality predicates on its eleven filter-key columns; the request of
    listCloudwatchLogTrailEvents depends on no equality predicate outside
    the pushdown columns (log_group_name, log_stream_name, filter and the
    filter-key columns) and on no qualifier other than those of timestamp
    with one of the operators the column declares; each pushdown column is
    a declared key column that accepts equality only. *)
Theorem pushdown_only_declared_predicates iteration :
  Permutation iteration filterQuals ->
  (forall equalQuals f,
     In f (buildQueryFilter iteration equalQuals) <->
     exists qual filterKey v,
       In (qual, filterKey) filterQuals /\ equalQuals !! qual = Some v /\
       f = filterExpression filterKey (GetStringValue (Some v))) /\
  (forall Limit (eq1 eq2 : gmap string QualValue) quals,
     (forall col, In col pushdown_columns -> eq1 !! col = eq2 !! col) ->
     filterLogEventsInput iteration Limit eq1 quals
     = filterLogEventsInput iteration Limit eq2 quals) /\
  (forall Limit equalQuals (quals1 quals2 : gmap string (list Qual)),
     quals1 !! "timestamp"%string = quals2 !! "timestamp"%string ->
     filterLogEventsInput iteration Limit equalQuals quals1
     = filterLogEventsInput iteration Limit equalQuals quals2) /\
  (forall Limit equalQuals (quals : gmap string (list Qual)) qs,
     filterLogEventsInput iteration Limit equalQuals
       (<["timestamp"%string :=
            List.filter (fun q => handled_operator (Operator q)) qs]> quals)
     = filterLogEventsInput iteration Limit equalQuals
         (<["timestamp"%string := qs]> quals)) /\
  (forall op, handled_operator op = true <->
              exists kc, key_column "timestamp" = Some kc /\
                         In op (declared_operators kc)) /\
  Forall (fun col => declared_operators <$> key_column col
                     = Some ["="%string])
    pushdown_columns.
Proof.
  intros Hperm. split; [|split; [|split; [|split; [|split]]]].
  - intros equalQuals f. unfold buildQueryFilter.
    rewrite buildQueryFilter_fold. split.
    + intros [[]|(q & k & v & Hin & Hv & ->)].
      exists q, k, v. split; [|done]. by eapply Permutation_in.
    + intros (q & k & v & Hin & Hv & ->). right.
      exists q, k, v. split; [|done].
      eapply Permutation_in; [|exact Hin]. by apply Permutation_sym.
  - intros Limit eq1 eq2 quals H. unfold filterLogEventsInput.
    assert (Hfilter : buildQueryFilter iteration eq1
                      = buildQueryFilter iteration eq2).
    { apply buildQueryFilter_agree. intros col Hin. apply H.
      unfold pushdown_columns. apply in_or_app. right.
      eapply Permutation_in; [|exact Hin]. by apply Permutation_map. }
    rewrite Hfilter.
    rewrite (H "filter"%string) by (simpl; tauto).
    rewrite (H "log_group_name"%string) by (simpl; tauto).
    rewrite (H "log_stream_name"%string) by (simpl; tauto).
    done.
  - intros Limit equalQuals quals1 quals2 H. unfold filterLogEventsInput.
    by rewrite H.
  - intros Limit equalQuals quals qs. unfold filterLogEventsInput.
    rewrite !lookup_insert_eq. apply timestampQuals_handled.
  - intros op. unfold handled_operator. split.
    + intros H. eexists. split; [reflexivity|]. simpl.
      repeat (apply orb_prop in H as [H|H]);
        apply String.eqb_eq in H; subst; tauto.
    + intros (kc & [= <-] & Hin). simpl in Hin.
      destruct Hin as [<-|[<-|[<-|[<-|[<-|[]]]]]]; reflexivity.
  - vm_compute. repeat constructor.
Qed.

Lemma pushdown_only_declared_predicates_witness :
  filterLogEventsInput filterQuals None Examples.trail_predicates
    Examples.trail_timestamps
  = {| LogGroupName := Some "trail-logs"%string;
       Limit := Some 10000;
       LogStreamNames := [];
       FilterPattern :=
         Some ("{ ( $.eventName = " +:+ quote +:+ "ConsoleLogin" +:+ quote
               +:+ " ) }")%string;
       StartTime := Some 1700000000000;
       EndTime := None;
       NextToken := None |}
  /\ filterLogEventsInput filterQuals None Examples.trail_predicates
       Examples.trail_timestamps
     = filterLogEventsInput filterQuals None
         (delete "recipient_account_id"%string Examples.trail_predicates)
         Examples.trail_timestamps.
Proof.
  destruct (pushdown_only_declared_predicates filterQuals
              (Permutation_refl _)) as (_ & Hagree & _).
  split; [vm_compute; reflexivity|].
  apply Hagree. intros col Hin.
  rewrite lookup_delete_ne; [done|].
  intros <-. vm_compute in Hin.
  repeat (destruct Hin as [Hin|Hin]; [discriminate|]). done.
Defined.

End PushdownClaims.

(** ** Hydrate functions run once per row *)

Module HydrationClaims.
Import Go Sdk Instances Hydration.

Section Engine.

Context {Item Val Trace : Type}.
Variable run : string -> Item -> Trace -> Trace * outcome Val.

Lemma resolveColumns_NoDup projection (ctx : RowContext Item Val) tr :
  NoDup (invocations ctx) -> logged_are_cached ctx ->
  NoDup (invocations (resolveColumns run projection ctx tr).1.1).
Proof.
  revert ctx tr.
  induction projection as [|[f|] projection IH]; intros ctx tr Hnd Hc;
    simpl; [done| |by apply IH].
  destruct (results ctx !! f) as [v|] eqn:Hf; [by apply IH|].
  destruct (run f (item ctx) tr) as [tr' o].
  assert (Hlog : NoDup (invocations ctx ++ [f])).
  { apply NoDup_app. split; [done|]. split; [|apply NoDup_singleton].
    intros g Hg Hgf. apply list_elem_of_singleton in Hgf as ->.
    destruct (Hc _ Hg) as [w Hw]. congruence. }
  destruct o as [v|e|]; simpl; [|done|done].
  apply IH; simpl; [done|].
  intros g Hg. simpl in *. apply elem_of_app in Hg as [Hg|Hg].
  - destruct (decide (f = g)) as [->|Hne].
    + rewrite lookup_insert_eq. eauto.
    + rewrite lookup_insert_ne by done. by apply Hc.
  - apply list_elem_of_singleton in Hg as ->.
    rewrite lookup_insert_eq. eauto.
Qed.

Lemma NoDup_filter_eq (f : string) (l : list string) :
  NoDup l -> (length (filter (fun g => g = f) l) <= 1)%nat.
Proof.
  induction 1 as [|g l Hg Hnd IH]; simpl; [lia|].
  rewrite filter_cons. destruct (decide (g = f)) as [->|Hne]; [|done].
  simpl. assert (Hnil : filter (fun g => g = f) l = []).
  { destruct (filter (fun g => g = f) l) as [|x xs] eqn:E; [done|].
    assert (Hx : x ∈ filter (fun g => g = f) l) by (rewrite E; left).
    apply list_elem_of_filter in Hx as [-> Hx]. done. }
  rewrite Hnil. simpl. lia.
Qed.

End Engine.

Local Abbreviation policy := "getLambdaAliasPolicy"%string.

Lemma columns_hydrate c :
  In c LambdaAlias.Columns ->
  LambdaAlias.Hydrate c = None \/ LambdaAlias.Hydrate c = Some policy.
Proof.
  simpl. intros H.
  repeat (destruct H as [<-|H]; [simpl; auto|]). done.
Qed.

(** Closes a goal about a run that issued no call. *)
Local Ltac no_calls :=
  exists []; split; [by rewrite app_nil_r | simpl; lia].

Lemma getLambdaAliasPolicy_calls alias session tr :
  exists calls,
    (LambdaAlias.getLambdaAliasPolicy alias session tr).1 = tr ++ calls
    /\ (length calls <= 1)%nat.
Proof.
  unfold LambdaAlias.getLambdaAliasPolicy.
  destruct session as [err|svc]; [no_calls|].
  destruct (LambdaAlias.aliasRowData_FunctionName alias) as [fn|];
    [|no_calls].
  destruct (LambdaAlias.Alias alias) as [a|]; [|no_calls].
  destruct (LambdaAlias.AliasName a) as [name|]; [|no_calls].
  set (input := {| LambdaAlias.GetPolicyInput_FunctionName := Some fn;
                   LambdaAlias.Qualifier := Some name |}).
  exists [(input, svc input)]. split; [|simpl; lia].
  destruct (svc input) as [op|[code msg|msg]]; try done.
  by destruct (code =? _)%string.
Qed.

Lemma getLambdaAliasPolicy_one_call alias svc tr fn a name :
  LambdaAlias.aliasRowData_FunctionName alias = Some fn ->
  LambdaAlias.Alias alias = Some a ->
  LambdaAlias.AliasName a = Some name ->
  exists call,
    (LambdaAlias.getLambdaAliasPolicy alias (Service svc) tr).1 = tr ++ [call].
Proof.
  intros Hfn Ha Hname. unfold LambdaAlias.getLambdaAliasPolicy.
  rewrite Hfn, Ha, Hname.
  set (input := {| LambdaAlias.GetPolicyInput_FunctionName := Some fn;
                   LambdaAlias.Qualifier := Some name |}).
  exists (input, svc input).
  destruct (svc input) as [op|[code msg|msg]]; try done.
  by destruct (code =? _)%string.
Qed.

(** Once the policy is cached no column of the row calls the provider. *)
Lemma cached_policy_no_calls session projection
    (ctx : RowContext LambdaAlias.aliasRowData LambdaAlias.policyItem) tr :
  is_Some (results ctx !! policy) ->
  (resolveColumns (lambdaAliasHydrate session) projection ctx tr).1.2 = tr.
Proof.
  revert ctx tr.
  induction projection as [|[f|] projection IH]; intros ctx tr Hc; simpl;
    [done| |by apply IH].
  destruct (results ctx !! f) as [v|] eqn:Hf; [by apply IH|].
  unfold lambdaAliasHydrate.
  destruct (String.eqb_spec f policy) as [->|Hne].
  - destruct Hc as [w Hw]. congruence.
  - done.
Qed.

Lemma resolve_calls_at_most_one session projection
    (ctx : RowContext LambdaAlias.aliasRowData LambdaAlias.policyItem) tr :
  exists calls,
    (resolveColumns (lambdaAliasHydrate session) projection ctx tr).1.2
    = tr ++ calls /\ (length calls <= 1)%nat.
Proof.
  revert ctx tr.
  induction projection as [|[f|] projection IH]; intros ctx tr; simpl;
    [no_calls | | apply IH].
  destruct (results ctx !! f) as [v|] eqn:Hf; [apply IH|].
  unfold lambdaAliasHydrate.
  destruct (String.eqb_spec f policy) as [->|Hne]; [|no_calls].
  destruct (getLambdaAliasPolicy_calls (item ctx) session tr)
    as (calls & Hcalls & Hlen).
  destruct (LambdaAlias.getLambdaAliasPolicy _ _ _) as [tr' o].
  simpl in Hcalls. subst tr'. exists calls. split; [|done].
  destruct o as [v|e|]; simpl; [|done|done].
  apply cached_policy_no_calls. simpl. rewrite lookup_insert_eq. eauto.
Qed.

Lemma lambdaAliasHydrate_policy session alias tr :
  lambdaAliasHydrate session policy alias tr
  = LambdaAlias.getLambdaAliasPolicy alias session tr.
Proof. reflexivity. Qed.

(** The first requested policy column issues the one call of the row. *)
Lemma resolve_policy_column svc projection
    (ctx : RowContext LambdaAlias.aliasRowData LambdaAlias.policyItem)
    tr fn a name :
  LambdaAlias.aliasRowData_FunctionName (item ctx) = Some fn ->
  LambdaAlias.Alias (item ctx) = Some a ->
  LambdaAlias.AliasName a = Some name ->
  results ctx !! policy = None ->
  exists call,
    (resolveColumns (lambdaAliasHydrate (Service svc))
       (Some policy :: projection) ctx tr).1.2
    = tr ++ [call].
Proof.
  intros Hfn Ha Hname Hnone. cbn [resolveColumns].
  rewrite Hnone, lambdaAliasHydrate_policy.
  destruct (getLambdaAliasPolicy_one_call (item ctx) svc tr fn a name)
    as [call Hcall]; [done..|].
  destruct (LambdaAlias.getLambdaAliasPolicy (item ctx) (Service svc) tr)
    as [tr' o].
  simpl in Hcall. subst tr'. exists call.
  destruct o as [v|e|]; [|done|done].
  apply cached_policy_no_calls. simpl. rewrite lookup_insert_eq. eauto.
Qed.

Lemma resolve_calls_exactly_one svc projection
    (ctx : RowContext LambdaAlias.aliasRowData LambdaAlias.policyItem)
    tr fn a name :
  LambdaAlias.aliasRowData_FunctionName (item ctx) = Some fn ->
  LambdaAlias.Alias (item ctx) = Some a ->
  LambdaAlias.AliasName a = Some name ->
  results ctx !! policy = None ->
  Forall (fun h => h = None \/ h = Some policy) projection ->
  Exists (fun h => h = Some policy) projection ->
  exists call,
    (resolveColumns (lambdaAliasHydrate (Service svc)) projection ctx tr).1.2
    = tr ++ [call].
Proof.
  intros Hfn Ha Hname Hnone Hall Hex. revert Hall.
  induction Hex as [h projection Hh|h projection Hex IH]; intros Hall;
    apply Forall_cons in Hall as [Hh' Hall].
  - subst h. by eapply resolve_policy_column.
  - destruct Hh' as [->| ->]; [by apply IH|].
    by eapply resolve_policy_column.
Qed.

(** C2.  Column resolution runs each hydrate function at most once for a
    row, whatever columns are requested; for an aws_lambda_alias row at
    most one GetPolicy call is issued, and exactly one when the row's
    pointers are set, the session resolves and a requested column of the
    table declares getLambdaAliasPolicy, as policy and policy_std do. *)
Theorem hydrate_function_runs_once :
  (forall (Item Val Trace : Type)
          (run : string -> Item -> Trace -> Trace * outcome Val)
          projection item tr f,
     (invoked f (resolveColumns run projection (Listed item) tr).1.1 <= 1)%nat)
  /\ (forall session projection alias,
        (length (resolveLambdaAliasRow session projection alias).1.2 <= 1)%nat)
  /\ (forall svc projection alias fn a name,
        LambdaAlias.aliasRowData_FunctionName alias = Some fn ->
        LambdaAlias.Alias alias = Some a ->
        LambdaAlias.AliasName a = Some name ->
        Forall (fun c => In c LambdaAlias.Columns) projection ->
        Exists (fun c => LambdaAlias.Hydrate c = Some policy) projection ->
        length (resolveLambdaAliasRow (Service svc) projection alias).1.2
        = 1%nat).
Proof.
  split; [|split].
  - intros Item Val Trace run projection item tr f. unfold invoked.
    apply NoDup_filter_eq, resolveColumns_NoDup; simpl.
    + apply NoDup_nil_2.
    + intros g Hg. by apply elem_of_nil in Hg.
  - intros session projection alias. unfold resolveLambdaAliasRow.
    destruct (resolve_calls_at_most_one session
                (map LambdaAlias.Hydrate projection) (Listed alias) [])
      as (calls & -> & Hlen).
    done.
  - intros svc projection alias fn a name Hfn Ha Hname Hall Hex.
    unfold resolveLambdaAliasRow.
    destruct (resolve_calls_exactly_one svc
                (map LambdaAlias.Hydrate projection) (Listed alias) []
                fn a name) as [call ->]; try done.
    + apply Forall_map. eapply Forall_impl; [exact Hall|].
      intros c Hc. by apply columns_hydrate.
    + by apply Exists_map.
Qed.

Lemma hydrate_function_runs_once_witness :
  map LambdaAlias.Name Examples.policy_projection
  = ["policy"; "policy_std"]%string
  /\ length (resolveLambdaAliasRow (Service Examples.policy_found)
               Examples.policy_projection Examples.alias_row).1.2
     = 1%nat.
Proof.
  destruct hydrate_function_runs_once as (_ & _ & Hone).
  split; [reflexivity|].
  apply (Hone _ _ _ "fn"%string (Examples.alias "live") "live"%string);
    try reflexivity.
  - repeat constructor; simpl; tauto.
  - constructor. reflexivity.
Defined.

End HydrationClaims.

(** ** Concrete inputs, continued *)

Module CoverageExamples.
Import Go Sdk.

(** A predicate on the boolean column read_only. *)
Definition read_only_predicate : gmap string QualValue :=
  <["read_only"%string := BoolValue true]> Examples.trail_quals.

(** An explicit filter next to a column predicate. *)
Definition filter_and_column : gmap string QualValue :=
  <["filter"%string := StringValue "{ $.errorCode = * }"]>
    Examples.trail_predicates.

(** Two outputs of ListCloudFrontOriginAccessIdentities, each with its
    list. *)
Definition identity_outputs : CloudFrontOriginAccessIdentity.identity_pages :=
  CloudFrontOriginAccessIdentity.MoreOutputs
    {| CloudFrontOriginAccessIdentity.CloudFrontOriginAccessIdentityList :=
         Some {| CloudFrontOriginAccessIdentity.Items :=
                   [Examples.summary_with_id] |} |}
    "marker-1"
    (CloudFrontOriginAccessIdentity.LastOutput
       {| CloudFrontOriginAccessIdentity.CloudFrontOriginAccessIdentityList :=
            Some {| CloudFrontOriginAccessIdentity.Items :=
                      [Examples.summary_without_id] |} |}).

End CoverageExamples.

(** * Further properties *)

(** ** Order, completeness and token chaining of the rate-limited loop *)

Module PaginatorCoverage.
Import Go Sdk TraceFacts Coverage.

Section Facts.

Context {Req Item Row : Type}.
Local Abbreviation trace := (list (event Req Item Row)).

Variable RowsRemaining : trace -> Z.
Variable request : option string -> Req.
Variable row : Item -> option Row.
Variable more : option string -> string -> bool.

Local Abbreviation streamItems := (Paginator.streamItems RowsRemaining row).
Local Abbreviation paginate :=
  (Paginator.paginate RowsRemaining request row more).

Lemma calls_app (tr1 tr2 : trace) : calls (tr1 ++ tr2) = calls tr1 ++ calls tr2.
Proof.
  induction tr1 as [|[| |] tr1 IH]; simpl; try done. by rewrite IH.
Qed.

Lemma calls_rows (rows : list Row) :
  calls (map (@StreamListItem Req Item Row) rows) = [].
Proof. induction rows as [|r rows IH]; simpl; done. Qed.

Lemma waits_app (tr1 tr2 : trace) :
  waits (tr1 ++ tr2) = (waits tr1 + waits tr2)%nat.
Proof.
  induction tr1 as [|[| |] tr1 IH]; simpl; try done. by rewrite IH.
Qed.

Lemma waits_rows (rows : list Row) :
  waits (map (@StreamListItem Req Item Row) rows) = 0%nat.
Proof. induction rows as [|r rows IH]; simpl; done. Qed.

(** The rows streamed from a page are built, in order, from a prefix of
    its items, and from all of them when the loop runs to its end. *)
Lemma streamItems_prefix items tr tr' fl :
  streamItems items tr = (tr', fl) ->
  exists rows rest,
    tr' = tr ++ map StreamListItem rows /\
    map row items = map Some rows ++ rest /\
    (fl = Continue -> rest = []).
Proof.
  revert tr. induction items as [|i items IH]; intros tr H; simpl in H.
  - injection H as <- <-. exists [], []. by rewrite app_nil_r.
  - destruct (row i) as [r|] eqn:Hr.
    + destruct (RowsRemaining _ =? 0).
      * injection H as <- <-. exists [r], (map row items).
        simpl. rewrite Hr. split; [done|]. split; [done|discriminate].
      * apply IH in H as (rows & rest & -> & Hrows & Hc).
        exists (r :: rows), rest. simpl. rewrite Hr, Hrows.
        split; [by rewrite <- app_assoc | done].
    + injection H as <- <-. exists [], (map row (i :: items)).
      rewrite app_nil_r. split; [done|]. split; [done|discriminate].
Qed.

(** With rows left after every row and a row for every item, the loop
    over a page streams all of it and runs to its end. *)
Lemma streamItems_all items tr :
  (forall t, RowsRemaining t <> 0) ->
  (forall i, is_Some (row i)) ->
  exists rows,
    streamItems items tr = (tr ++ map StreamListItem rows, Continue) /\
    map row items = map Some rows.
Proof.
  intros HR Hrow. revert tr.
  induction items as [|i items IH]; intros tr; simpl.
  - exists []. by rewrite app_nil_r.
  - destruct (Hrow i) as [r Hr]. rewrite Hr.
    destruct (Z.eqb_spec (RowsRemaining (tr ++ [StreamListItem r])) 0)
      as [Hz|_]; [by apply HR in Hz|].
    destruct (IH (tr ++ [StreamListItem r])) as (rows & -> & Hrows).
    exists (r :: rows). simpl. rewrite Hrows.
    split; [by rewrite <- app_assoc | done].
Qed.

(** The events of one page: the wait, the call and the rows. *)
Local Abbreviation page_events token resp rows :=
  ([WaitForListRateLimit; ProviderCall (request token) resp]
   ++ map (@StreamListItem Req Item Row) rows).

Lemma page_events_facts token resp (rows : list Row) :
  calls (page_events token resp rows) = [(request token, resp)]
  /\ waits (page_events token resp rows) = 1%nat
  /\ streamed (page_events token resp rows) = rows
  /\ fetched (page_events token resp rows)
     = match resp with PageOut items _ => items | CallError _ => [] end.
Proof.
  rewrite calls_app, waits_app, streamed_app, fetched_app,
    calls_rows, waits_rows, streamed_rows, fetched_rows.
  simpl. destruct resp; by rewrite ?app_nil_r.
Qed.

(** The rows a run streams are built, in order, from a prefix of the
    items it fetched. *)
Lemma paginate_prefix svc token tr tr' res :
  paginate token svc tr = (tr', res) ->
  exists new rest,
    tr' = tr ++ new /\
    map row (fetched new) = map Some (streamed new) ++ rest.
Proof.
  revert token tr.
  induction svc as [items|items next rest IH|err]; intros token tr H;
    simpl in H.
  - destruct (Paginator.streamItems _ _ items _) as [tr2 fl] eqn:E.
    apply streamItems_prefix in E as (rows & rest & -> & Hrows & _).
    exists (page_events token (PageOut items None) rows), rest.
    destruct (page_events_facts token (PageOut items None) rows)
      as (_ & _ & -> & ->).
    split; [|done]. destruct fl; injection H as <- _; by rewrite <- app_assoc.
  - destruct (Paginator.streamItems _ _ items _) as [tr2 fl] eqn:E.
    apply streamItems_prefix in E as (rows & rest' & -> & Hrows & Hc).
    pose proof (page_events_facts token (PageOut items (Some next)) rows)
      as (_ & _ & Hs & Hf).
    destruct fl as [|o]; [destruct (more token next)|].
    + rewrite (Hc eq_refl), app_nil_r in Hrows.
      apply IH in H as (new & rest'' & -> & Hnew).
      exists (page_events token (PageOut items (Some next)) rows ++ new),
        rest''.
      split; [by rewrite <- !app_assoc|].
      rewrite fetched_app, streamed_app, Hs, Hf, !map_app, Hrows, Hnew.
      by rewrite <- app_assoc.
    + injection H as <- _.
      exists (page_events token (PageOut items (Some next)) rows), rest'.
      rewrite Hs, Hf. split; [by rewrite <- app_assoc | done].
    + injection H as <- _.
      exists (page_events token (PageOut items (Some next)) rows), rest'.
      rewrite Hs, Hf. split; [by rewrite <- app_assoc | done].
  - injection H as <- _.
    exists [WaitForListRateLimit;
            ProviderCall (request token) (CallError err)], [].
    done.
Qed.

(** With rows left after every row, a row for every item and a loop that
    goes on after every token, a run fetches and streams everything the
    provider has and returns its failure, if any. *)
Lemma paginate_all svc token tr :
  (forall t, RowsRemaining t <> 0) ->
  (forall i, is_Some (row i)) ->
  always_more more token svc ->
  exists new,
    paginate token svc tr = (tr ++ new, finished svc) /\
    fetched new = provider_items svc /\
    map Some (streamed new) = map row (provider_items svc).
Proof.
  intros HR Hrow. revert token tr.
  induction svc as [items|items next rest IH|err]; intros token tr Hmore;
    simpl.
  - destruct (streamItems_all items
                (tr ++ [WaitForListRateLimit;
                        ProviderCall (request token) (PageOut items None)])
                HR Hrow) as (rows & -> & Hrows).
    exists (page_events token (PageOut items None) rows).
    destruct (page_events_facts token (PageOut items None) rows)
      as (_ & _ & -> & ->).
    split; [by rewrite <- app_assoc | done].
  - destruct (streamItems_all items
                (tr ++ [WaitForListRateLimit;
                        ProviderCall (request token)
                          (PageOut items (Some next))])
                HR Hrow) as (rows & -> & Hrows).
    destruct Hmore as [-> Hmore].
    destruct (IH (Some next)
                ((tr ++ [WaitForListRateLimit;
                         ProviderCall (request token)
                           (PageOut items (Some next))])
                 ++ map StreamListItem rows) Hmore)
      as (new & -> & Hf & Hs).
    pose proof (page_events_facts token (PageOut items (Some next)) rows)
      as (_ & _ & Hs' & Hf').
    exists (page_events token (PageOut items (Some next)) rows ++ new).
    split; [by rewrite <- !app_assoc|].
    rewrite fetched_app, streamed_app, Hs', Hf', Hf, !map_app, Hs, Hrows.
    done.
  - exists [WaitForListRateLimit;
            ProviderCall (request token) (CallError err)].
    done.
Qed.

(** The calls of a run follow the continuation tokens, and a run waits
    exactly once for each call. *)
Lemma paginate_chained (tok : Req -> option string) svc token tr tr' res :
  (forall t, tok (request t) = t) ->
  paginate token svc tr = (tr', res) ->
  exists new,
    tr' = tr ++ new /\ chained tok more token (calls new) /\
    calls new <> [] /\ waits new = length (calls new).
Proof.
  intros Htok. revert token tr.
  induction svc as [items|items next rest IH|err]; intros token tr H;
    simpl in H.
  - destruct (Paginator.streamItems _ _ items _) as [tr2 fl] eqn:E.
    apply streamItems_prefix in E as (rows & rest & -> & _ & _).
    exists (page_events token (PageOut items None) rows).
    destruct (page_events_facts token (PageOut items None) rows)
      as (-> & -> & _ & _).
    split; [destruct fl; injection H as <- _; by rewrite <- app_assoc|].
    simpl. by rewrite Htok.
  - destruct (Paginator.streamItems _ _ items _) as [tr2 fl] eqn:E.
    apply streamItems_prefix in E as (rows & rest' & -> & _ & _).
    pose proof (page_events_facts token (PageOut items (Some next)) rows)
      as (Hc & Hw & _ & _).
    destruct fl as [|o]; [destruct (more token next) eqn:Hmore|].
    + apply IH in H as (new & -> & Hch & Hne & Hwn).
      exists (page_events token (PageOut items (Some next)) rows ++ new).
      split; [by rewrite <- !app_assoc|].
      rewrite calls_app, waits_app, Hc, Hw, Hwn. simpl.
      rewrite Htok. repeat split; try done. by right.
    + injection H as <- _.
      exists (page_events token (PageOut items (Some next)) rows).
      rewrite Hc, Hw. split; [by rewrite <- app_assoc|]. simpl.
      rewrite Htok. repeat split; try done. by left.
    + injection H as <- _.
      exists (page_events token (PageOut items (Some next)) rows).
      rewrite Hc, Hw. split; [by rewrite <- app_assoc|]. simpl.
      rewrite Htok. repeat split; try done. by left.
  - injection H as <- _.
    exists [WaitForListRateLimit;
            ProviderCall (request token) (CallError err)].
    simpl. by rewrite Htok.
Qed.

End Facts.

End PaginatorCoverage.

(** ** The list functions of the rate-limited tables, continued *)

Module ListCoverage.
Import Go Sdk TraceFacts PaginatorFacts PaginatorCoverage ListFacts.
Import Instances Coverage.

Lemma map_Some_prefix {A : Type} (l a : list A) (rest : list (option A)) :
  map Some l = map Some a ++ rest -> exists rest', l = a ++ rest'.
Proof.
  revert l. induction a as [|x a IH]; intros l H; simpl in H.
  - by exists l.
  - destruct l as [|y l]; simpl in H; [discriminate|].
    injection H as -> H. destruct (IH _ H) as [rest' ->]. by exists rest'.
Qed.

Lemma map_Some_inj_rows {A : Type} (l1 l2 : list A) :
  map Some l1 = map Some l2 -> l1 = l2.
Proof.
  revert l2. induction l1 as [|x l1 IH]; intros [|y l2] H; simpl in H;
    try done.
  injection H as -> H. f_equal. auto.
Qed.

(** X1.  The rows listAPIGatewayV2Routes and listCloudwatchLogTrailEvents
    stream are, in provider order, the rows of a prefix of the items
    they fetched: no item is skipped before a streamed one, none is
    repeated, reordered or invented. *)
Theorem list_streams_fetched_in_order :
  (forall RowsRemaining Limit api client tr,
     exists new rest,
       (APIGatewayV2Route.listAPIGatewayV2Routes RowsRemaining Limit api
          client tr).1 = tr ++ new /\
       map (routeRow api) (fetched new) = map Some (streamed new) ++ rest) /\
  (forall RowsRemaining iteration Limit equalQuals quals session tr,
     exists new rest,
       (CloudtrailTrailEvent.listCloudwatchLogTrailEvents RowsRemaining
          iteration Limit equalQuals quals session tr).1 = tr ++ new /\
       fetched new = streamed new ++ rest).
Proof.
  split.
  - intros RR Limit api client tr.
    unfold APIGatewayV2Route.listAPIGatewayV2Routes.
    destruct client as [err| |svc]; simpl;
      [exists [], []; by rewrite app_nil_r ..|].
    rewrite getRoutesPages_paginator.
    destruct (Paginator.paginate _ _ _ _ _ _ _) as [tr' res] eqn:E.
    apply paginate_prefix in E as (new & rest & -> & H). by exists new, rest.
  - intros RR iteration Limit equalQuals quals session tr.
    unfold CloudtrailTrailEvent.listCloudwatchLogTrailEvents.
    destruct session as [err|svc]; simpl;
      [exists [], []; by rewrite app_nil_r|].
    rewrite filterLogEventsPages_paginator.
    destruct (Paginator.paginate _ _ _ _ _ _ _) as [tr' res] eqn:E.
    apply paginate_prefix in E as (new & rest & -> & H).
    apply map_Some_prefix in H as [rest' H]. by exists new, rest'.
Qed.

Lemma always_more_true {Item : Type} prev (svc : pages Item) :
  always_more (fun _ _ => true) prev svc.
Proof.
  revert prev. induction svc as [|items next rest IH|]; intros prev; simpl;
    auto.
Qed.

(** X2.  While rows remain after every row, listAPIGatewayV2Routes (for an
    API whose id is set) and listCloudwatchLogTrailEvents (for a provider
    whose tokens are neither empty nor repeated) fetch every page, stream
    every item the provider has, in order, and return the provider's
    failure if a call fails and no error otherwise. *)
Theorem unlimited_list_streams_everything :
  (forall RowsRemaining Limit api id svc tr,
     (forall t, RowsRemaining t <> 0) ->
     APIGatewayV2Route.ApiId api = Some id ->
     exists new,
       APIGatewayV2Route.listAPIGatewayV2Routes RowsRemaining Limit api
         (Client svc) tr = (tr ++ new, finished svc) /\
       fetched new = provider_items svc /\
       streamed new
       = map (fun route =>
                {| APIGatewayV2Route.RouteInfo_ApiId := id;
                   APIGatewayV2Route.RouteInfo_GetRouteOutput :=
                     Some (APIGatewayV2Route.routeOp route) |})
           (provider_items svc)) /\
  (forall RowsRemaining iteration Limit equalQuals quals svc tr,
     (forall t, RowsRemaining t <> 0) ->
     always_more CloudtrailTrailEvent.hasMorePages None svc ->
     exists new,
       CloudtrailTrailEvent.listCloudwatchLogTrailEvents RowsRemaining
         iteration Limit equalQuals quals (Service svc) tr
       = (tr ++ new, finished svc) /\
       fetched new = provider_items svc /\
       streamed new = provider_items svc).
Proof.
  split.
  - intros RR Limit api id svc tr HR Hid.
    unfold APIGatewayV2Route.listAPIGatewayV2Routes.
    rewrite getRoutesPages_paginator.
    destruct (paginate_all RR
                (routesRequest api
                   (maxLimit APIGatewayV2Route.ceiling Limit))
                (routeRow api) (fun _ _ => true) svc None tr HR)
      as (new & Hrun & Hf & Hs).
    + intros route. unfold routeRow. rewrite Hid. eauto.
    + apply always_more_true.
    + exists new. split; [done|]. split; [done|].
      apply map_Some_inj_rows. rewrite Hs. rewrite !map_map.
      apply map_ext. intros route. unfold routeRow. by rewrite Hid.
  - intros RR iteration Limit equalQuals quals svc tr HR Hmore.
    unfold CloudtrailTrailEvent.listCloudwatchLogTrailEvents.
    rewrite filterLogEventsPages_paginator.
    destruct (paginate_all RR
                (CloudtrailTrailEvent.pageRequest
                   (CloudtrailTrailEvent.filterLogEventsInput iteration Limit
                      equalQuals quals)
                   (maxLimit CloudtrailTrailEvent.ceiling Limit))
                Some CloudtrailTrailEvent.hasMorePages svc None tr HR)
      as (new & Hrun & Hf & Hs); [eauto | done |].
    exists new. split; [done|]. split; [done|].
    by apply map_Some_inj_rows.
Qed.

Lemma budget_none_positive {Req Item Row : Type}
    (t : list (event Req Item Row)) :
  budget None t <> 0.
Proof. unfold budget. lia. Qed.

Lemma unlimited_list_streams_everything_witness :
  (APIGatewayV2Route.listAPIGatewayV2Routes (budget None) None Examples.api
     (Client Examples.three_routes) []).2 = Return None
  /\ map (fun r => APIGatewayV2Route.RouteId <$>
                     APIGatewayV2Route.RouteInfo_GetRouteOutput r)
       (streamed
          (APIGatewayV2Route.listAPIGatewayV2Routes (budget None) None
             Examples.api (Client Examples.three_routes) []).1)
     = [Some (Some "r1"); Some (Some "r2"); Some (Some "r3")]%string.
Proof.
  destruct unlimited_list_streams_everything as [Hroutes _].
  destruct (Hroutes (budget None) None Examples.api "a1b2"%string
              Examples.three_routes [] budget_none_positive eq_refl)
    as (new & Hrun & _ & Hs).
  rewrite Hrun. simpl. rewrite Hs. split; reflexivity.
Defined.

(** X3.  The page requests of listAPIGatewayV2Routes and
    listCloudwatchLogTrailEvents follow the continuation tokens: the
    first carries none, each later one the token of the answer before
    it, and no call follows an answer without token or an error (nor,
    for the log events, an answer whose token is empty or repeats the
    previous one).  Every call is preceded by its own wait, and the
    requests differ in the token only. *)
Theorem list_requests_follow_tokens :
  (forall RowsRemaining Limit api client tr,
     exists new,
       (APIGatewayV2Route.listAPIGatewayV2Routes RowsRemaining Limit api
          client tr).1 = tr ++ new /\
       chained APIGatewayV2Route.NextToken (fun _ _ => true) None (calls new)
       /\ waits new = length (calls new)
       /\ (forall svc, client = Client svc -> calls new <> [])
       /\ Forall (fun req =>
                    req = routesRequest api
                            (maxLimit APIGatewayV2Route.ceiling Limit)
                            (APIGatewayV2Route.NextToken req))
            (requests new)) /\
  (forall RowsRemaining iteration Limit equalQuals quals session tr,
     exists new,
       (CloudtrailTrailEvent.listCloudwatchLogTrailEvents RowsRemaining
          iteration Limit equalQuals quals session tr).1 = tr ++ new /\
       chained CloudtrailTrailEvent.NextToken
         CloudtrailTrailEvent.hasMorePages None (calls new)
       /\ waits new = length (calls new)
       /\ (forall svc, session = Service svc -> calls new <> [])
       /\ Forall (fun req =>
                    req = CloudtrailTrailEvent.pageRequest
                            (CloudtrailTrailEvent.filterLogEventsInput
                               iteration Limit equalQuals quals)
                            (maxLimit CloudtrailTrailEvent.ceiling Limit)
                            (CloudtrailTrailEvent.NextToken req))
            (requests new)).
Proof.
  split.
  - intros RR Limit api client tr.
    unfold APIGatewayV2Route.listAPIGatewayV2Routes.
    destruct client as [err| |svc]; simpl;
      [exists []; by rewrite app_nil_r ..|].
    rewrite getRoutesPages_paginator.
    destruct (Paginator.paginate _ _ _ _ _ _ _) as [tr' res] eqn:E.
    pose proof E as E'.
    apply (paginate_chained _ _ _ _ APIGatewayV2Route.NextToken) in E
      as (new & -> & Hch & Hne & Hw); [|done].
    apply paginate_shape in E' as (new' & Heq & _ & Hreq).
    apply app_inv_head in Heq as <-.
    exists new. repeat split; try done.
    eapply Forall_impl; [exact Hreq|]. by intros req [tok ->].
  - intros RR iteration Limit equalQuals quals session tr.
    unfold CloudtrailTrailEvent.listCloudwatchLogTrailEvents.
    destruct session as [err|svc]; simpl;
      [exists []; by rewrite app_nil_r|].
    rewrite filterLogEventsPages_paginator.
    destruct (Paginator.paginate _ _ _ _ _ _ _) as [tr' res] eqn:E.
    pose proof E as E'.
    apply (paginate_chained _ _ _ _ CloudtrailTrailEvent.NextToken) in E
      as (new & -> & Hch & Hne & Hw); [|done].
    apply paginate_shape in E' as (new' & Heq & _ & Hreq).
    apply app_inv_head in Heq as <-.
    exists new. repeat split; try done.
    eapply Forall_impl; [exact Hreq|]. by intros req [tok ->].
Qed.

(** X4.  Whatever the caller's limit, also one that does not fit [int32],
    every request of listAPIGatewayV2Routes asks for between 1 and 500
    results and every request of listCloudwatchLogTrailEvents for
    between 1 and 10000. *)
Theorem page_size_within_ceiling :
  (forall RowsRemaining Limit api client tr,
     exists new,
       (APIGatewayV2Route.listAPIGatewayV2Routes RowsRemaining Limit api
          client tr).1 = tr ++ new /\
       Forall (fun req =>
                 exists n, APIGatewayV2Route.MaxResults req = Some (pretty n)
                           /\ 1 <= n <= 500)
         (requests new)) /\
  (forall RowsRemaining iteration Limit equalQuals quals session tr,
     exists new,
       (CloudtrailTrailEvent.listCloudwatchLogTrailEvents RowsRemaining
          iteration Limit equalQuals quals session tr).1 = tr ++ new /\
       Forall (fun req =>
                 exists n, CloudtrailTrailEvent.Limit req = Some n
                           /\ 1 <= n <= 10000)
         (requests new)).
Proof.
  split.
  - intros RR Limit api client tr.
    unfold APIGatewayV2Route.listAPIGatewayV2Routes.
    destruct client as [err| |svc]; simpl;
      [exists []; split; [by rewrite app_nil_r | constructor] ..|].
    rewrite getRoutesPages_paginator.
    destruct (Paginator.paginate _ _ _ _ _ _ _) as [tr' res] eqn:E.
    apply paginate_shape in E as (new & -> & _ & Hreq).
    exists new. split; [done|].
    eapply Forall_impl; [exact Hreq|]. intros req [tok ->]. simpl.
    eexists. split; [done|].
    apply (maxLimit_bounds APIGatewayV2Route.ceiling). done.
  - intros RR iteration Limit equalQuals quals session tr.
    unfold CloudtrailTrailEvent.listCloudwatchLogTrailEvents.
    destruct session as [err|svc]; simpl;
      [exists []; split; [by rewrite app_nil_r | constructor]|].
    rewrite filterLogEventsPages_paginator.
    destruct (Paginator.paginate _ _ _ _ _ _ _) as [tr' res] eqn:E.
    apply paginate_shape in E as (new & -> & _ & Hreq).
    exists new. split; [done|].
    eapply Forall_impl; [exact Hreq|]. intros req [tok ->]. simpl.
    pose proof (maxLimit_bounds CloudtrailTrailEvent.ceiling Limit
                  ltac:(done)) as Hb.
    destruct (Z.ltb_spec 0 (maxLimit CloudtrailTrailEvent.ceiling Limit));
      [|lia].
    eexists. split; [done|]. exact Hb.
Qed.

End ListCoverage.

(** ** The callback-paged list functions, continued *)

Module CallbackListCoverage.
Import Go Sdk TraceFacts CallbackListFacts PaginatorCoverage Coverage.

Section Rows.

Context {Req Item Row : Type}.
Variable f : Item -> Row.

Lemma built_rows_facts (l : list Item) :
  streamed (map (fun a => @StreamListItem Req Item Row (f a)) l) = map f l
  /\ fetched (map (fun a => @StreamListItem Req Item Row (f a)) l) = []
  /\ waits (map (fun a => @StreamListItem Req Item Row (f a)) l) = 0%nat.
Proof.
  induction l as [|a l (IH1 & IH2 & IH3)]; simpl; [done|].
  by rewrite IH1, IH2, IH3.
Qed.

End Rows.

Lemma ListAliasesPages_all function svc marker tr :
  exists new,
    LambdaAlias.ListAliasesPages function marker svc tr
    = (tr ++ new, provider_failure svc) /\
    fetched new = provider_items svc /\
    streamed new
    = map (fun alias =>
             {| LambdaAlias.Alias := Some alias;
                LambdaAlias.aliasRowData_FunctionName :=
                  LambdaAlias.FunctionName function |})
        (provider_items svc) /\
    waits new = 0%nat.
Proof.
  revert marker tr.
  induction svc as [Aliases|Aliases next rest IH|err]; intros marker tr;
    simpl.
  - rewrite streamAliases_shape, <- app_assoc. eexists. split; [done|].
    rewrite fetched_app, streamed_app, waits_app.
    destruct (built_rows_facts (Req := LambdaAlias.ListAliasesInput)
                (fun alias =>
                   {| LambdaAlias.Alias := Some alias;
                      LambdaAlias.aliasRowData_FunctionName :=
                        LambdaAlias.FunctionName function |}) Aliases)
      as (-> & -> & ->).
    simpl. by rewrite !app_nil_r.
  - rewrite streamAliases_shape.
    set (call := ProviderCall _ _). set (rows := map _ Aliases).
    destruct (IH (Some next) ((tr ++ [call]) ++ rows))
      as (new & -> & Hf & Hs & Hw).
    exists ([call] ++ rows ++ new). split; [by rewrite <- !app_assoc|].
    rewrite !fetched_app, !streamed_app, !waits_app, Hf, Hs, Hw.
    destruct (built_rows_facts (Req := LambdaAlias.ListAliasesInput)
                (fun alias =>
                   {| LambdaAlias.Alias := Some alias;
                      LambdaAlias.aliasRowData_FunctionName :=
                        LambdaAlias.FunctionName function |}) Aliases)
      as (Hs' & Hf' & Hw').
    fold rows in Hs', Hf', Hw'. rewrite Hs', Hf', Hw'. simpl.
    by rewrite ?app_nil_r, map_app.
  - eexists. split; [done|]. done.
Qed.

Lemma ListIdentitiesPages_all svc p tr :
  with_lists svc = Some p ->
  exists new,
    CloudFrontOriginAccessIdentity.ListCloudFrontOriginAccessIdentitiesPages
      svc tr
    = (tr ++ new,
       match provider_failure p with
       | Some e => Fail e
       | None => Return tt
       end) /\
    fetched new = provider_items p /\
    streamed new
    = map CloudFrontOriginAccessIdentity.SummaryItem (provider_items p) /\
    waits new = 0%nat.
Proof.
  revert p tr.
  induction svc as [page|page marker rest IH|err]; intros p tr; simpl;
    unfold CloudFrontOriginAccessIdentity.callback,
      CloudFrontOriginAccessIdentity.page_items.
  - destruct (CloudFrontOriginAccessIdentity.CloudFrontOriginAccessIdentityList
                page) as [l|]; [|done].
    intros [= <-]. simpl.
    rewrite streamIdentities_shape, <- app_assoc. eexists. split; [done|].
    rewrite fetched_app, streamed_app, waits_app.
    destruct (built_rows_facts (Req := unit)
                CloudFrontOriginAccessIdentity.SummaryItem
                (CloudFrontOriginAccessIdentity.Items l))
      as (-> & -> & ->).
    simpl. by rewrite !app_nil_r.
  - destruct (CloudFrontOriginAccessIdentity.CloudFrontOriginAccessIdentityList
                page) as [l|]; [|done].
    destruct (with_lists rest) as [rest'|]; [|done].
    intros [= <-]. simpl.
    rewrite streamIdentities_shape.
    set (call := ProviderCall _ _). set (rows := map _ _).
    destruct (IH rest' ((tr ++ [call]) ++ rows) eq_refl)
      as (new & -> & Hf & Hs & Hw).
    exists ([call] ++ rows ++ new). split; [by rewrite <- !app_assoc|].
    rewrite !fetched_app, !streamed_app, !waits_app, Hf, Hs, Hw.
    destruct (built_rows_facts (Req := unit)
                CloudFrontOriginAccessIdentity.SummaryItem
                (CloudFrontOriginAccessIdentity.Items l))
      as (Hs' & Hf' & Hw').
    fold rows in Hs', Hf', Hw'. rewrite Hs', Hf', Hw'. simpl.
    by rewrite ?app_nil_r, map_app.
  - intros [= <-]. eexists. split; [done|]. done.
Qed.

Lemma ListIdentitiesPages_panics svc tr :
  with_lists svc = None ->
  (CloudFrontOriginAccessIdentity.ListCloudFrontOriginAccessIdentitiesPages
     svc tr).2 = Panic.
Proof.
  revert tr.
  induction svc as [page|page marker rest IH|err]; intros tr; simpl;
    unfold CloudFrontOriginAccessIdentity.callback.
  - by destruct (CloudFrontOriginAccessIdentity.CloudFrontOriginAccessIdentityList
                   page).
  - destruct (CloudFrontOriginAccessIdentity.CloudFrontOriginAccessIdentityList
                page) as [l|]; [|done].
    simpl. destruct (with_lists rest); [done|]. intros _. by apply IH.
  - done.
Qed.

Lemma ListIdentitiesPages_rows svc tr :
  exists new identities,
    (CloudFrontOriginAccessIdentity.ListCloudFrontOriginAccessIdentitiesPages
       svc tr).1 = tr ++ new /\
    streamed new
    = map CloudFrontOriginAccessIdentity.SummaryItem identities.
Proof.
  revert tr.
  induction svc as [page|page marker rest IH|err]; intros tr; simpl;
    unfold CloudFrontOriginAccessIdentity.callback.
  - destruct (CloudFrontOriginAccessIdentity.CloudFrontOriginAccessIdentityList
                page) as [l|]; simpl.
    + rewrite streamIdentities_shape, <- app_assoc.
      eexists _, (CloudFrontOriginAccessIdentity.Items l). split; [done|].
      simpl. apply (built_rows_facts (Req := unit)).
    + by eexists _, [].
  - destruct (CloudFrontOriginAccessIdentity.CloudFrontOriginAccessIdentityList
                page) as [l|]; simpl.
    + rewrite streamIdentities_shape.
      set (call := ProviderCall _ _). set (rows := map _ _).
      destruct (IH ((tr ++ [call]) ++ rows)) as (new & identities & -> & Hs).
      exists ([call] ++ rows ++ new),
        (CloudFrontOriginAccessIdentity.Items l ++ identities).
      split; [by rewrite <- !app_assoc|].
      rewrite !streamed_app, Hs, map_app. simpl. f_equal.
      apply (built_rows_facts (Req := unit)).
    + by eexists _, [].
  - by eexists _, [].
Qed.

(** X5.  listLambdaAliases and listCloudFrontOriginAccessIdentities, once the
    session resolves, follow the pagination to its end whatever the row
    limit: they stream a row for every item the provider has, in order
    (each alias row with the name of the parent function), never wait on
    the rate limiter, and return the provider's failure if a call fails
    and no error otherwise.  For the identities this holds when every
    output up to the first failing call carries its list; the function
    panics exactly when one of them does not. *)
Theorem callback_list_streams_everything :
  (forall function svc tr,
     exists new,
       LambdaAlias.listLambdaAliases function (Service svc) tr
       = (tr ++ new, finished svc) /\
       fetched new = provider_items svc /\
       streamed new
       = map (fun alias =>
                {| LambdaAlias.Alias := Some alias;
                   LambdaAlias.aliasRowData_FunctionName :=
                     LambdaAlias.FunctionName function |})
           (provider_items svc) /\
       waits new = 0%nat) /\
  (forall svc p tr,
     with_lists svc = Some p ->
     exists new,
       CloudFrontOriginAccessIdentity.listCloudFrontOriginAccessIdentities
         (Service svc) tr
       = (tr ++ new, finished p) /\
       fetched new = provider_items p /\
       streamed new
       = map CloudFrontOriginAccessIdentity.SummaryItem (provider_items p)
       /\ waits new = 0%nat) /\
  (forall svc tr,
     (CloudFrontOriginAccessIdentity.listCloudFrontOriginAccessIdentities
        (Service svc) tr).2 = Panic
     <-> with_lists svc = None).
Proof.
  split; [|split].
  - intros function svc tr. simpl.
    destruct (ListAliasesPages_all function svc None tr)
      as (new & -> & Hrest).
    exists new. split; [|done]. unfold finished.
    by destruct (provider_failure svc).
  - intros svc p tr Hp. simpl.
    destruct (ListIdentitiesPages_all svc p tr Hp) as (new & -> & Hrest).
    exists new. split; [|done]. unfold finished.
    by destruct (provider_failure p).
  - intros svc tr. simpl. split.
    + destruct (with_lists svc) as [p|] eqn:Hp; [|done].
      destruct (ListIdentitiesPages_all svc p tr Hp) as (new & -> & _).
      by destruct (provider_failure p).
    + intros Hp. pose proof (ListIdentitiesPages_panics svc tr Hp) as H.
      destruct (CloudFrontOriginAccessIdentity.ListCloudFrontOriginAccessIdentitiesPages
                  svc tr) as [tr' [[]|err|]]; simpl in *; done.
Qed.

Lemma callback_list_streams_everything_witness :
  let svc := CoverageExamples.identity_outputs in
  let p := MorePages [Examples.summary_with_id] "marker-1"
             (LastPage [Examples.summary_without_id]) in
  with_lists svc = Some p /\
  exists new,
    CloudFrontOriginAccessIdentity.listCloudFrontOriginAccessIdentities
      (Service svc) []
    = ([] ++ new, finished p) /\
    fetched new = provider_items p /\
    streamed new
    = map CloudFrontOriginAccessIdentity.SummaryItem (provider_items p)
    /\ waits new = 0%nat.
Proof.
  intros svc p. split; [reflexivity|].
  apply (proj1 (proj2 callback_list_streams_everything) svc p []).
  reflexivity.
Defined.

End CallbackListCoverage.

(** ** The request of listCloudwatchLogTrailEvents, continued *)

Module TrailCoverage.
Import Go Sdk Instances Coverage.
Import CloudtrailTrailEvent.

(** Decides the string comparisons of the hypotheses and closes the
    contradictory cases. *)
Local Ltac string_cases :=
  repeat match goal with
         | H : (_ =? _)%string = true |- _ => apply String.eqb_eq in H; subst
         end;
  simpl in *; try discriminate; try done.

Lemma timestampQual_fields input q :
  let input' := timestampQual input q in
  LogGroupName input' = LogGroupName input
  /\ Limit input' = Limit input
  /\ LogStreamNames input' = LogStreamNames input
  /\ FilterPattern input' = FilterPattern input
  /\ NextToken input' = NextToken input
  /\ StartTime input'
     = (if sets_start (Operator q) then Some (timestampMs q)
        else StartTime input)
  /\ EndTime input'
     = (if sets_end (Operator q) then Some (timestampMs q)
        else EndTime input).
Proof.
  destruct q as [col op v].
  unfold timestampQual, sets_start, sets_end, timestampMs. cbn [Operator Value].
  destruct (op =? "=")%string eqn:E1; [string_cases|].
  destruct (op =? ">=")%string eqn:E2; [string_cases|].
  destruct (op =? ">")%string eqn:E3; [string_cases|].
  destruct (op =? "<")%string eqn:E4; [string_cases|].
  destruct (op =? "<=")%string eqn:E5; string_cases.
Qed.

Lemma find_app {A : Type} (p : A -> bool) (l1 l2 : list A) :
  find p (l1 ++ l2)
  = match find p l1 with Some x => Some x | None => find p l2 end.
Proof.
  induction l1 as [|x l1 IH]; simpl; [done|]. by destruct (p x).
Qed.

Lemma timestampQuals_fields qs input :
  let input' := fold_left timestampQual qs input in
  LogGroupName input' = LogGroupName input
  /\ Limit input' = Limit input
  /\ LogStreamNames input' = LogStreamNames input
  /\ FilterPattern input' = FilterPattern input
  /\ NextToken input' = NextToken input
  /\ StartTime input'
     = match last_with sets_start qs with
       | Some q => Some (timestampMs q)
       | None => StartTime input
       end
  /\ EndTime input'
     = match last_with sets_end qs with
       | Some q => Some (timestampMs q)
       | None => EndTime input
       end.
Proof.
  revert input. induction qs as [|q qs IH]; intros input; [done|].
  cbn [fold_left]. cbv zeta in *.
  destruct (IH (timestampQual input q))
    as (H1 & H2 & H3 & H4 & H5 & H6 & H7).
  destruct (timestampQual_fields input q)
    as (G1 & G2 & G3 & G4 & G5 & G6 & G7).
  rewrite H1, H2, H3, H4, H5, H6, H7, G1, G2, G3, G4, G5, G6, G7.
  repeat split; try done.
  - unfold last_with. cbn [rev]. rewrite find_app.
    destruct (find _ (rev qs)); [done|]. simpl.
    by destruct (sets_start (Operator q)).
  - unfold last_with. cbn [rev]. rewrite find_app.
    destruct (find _ (rev qs)); [done|]. simpl.
    by destruct (sets_end (Operator q)).
Qed.

(** X6.  Of the timestamp qualifiers the last one with "=", ">=" or ">"
    decides StartTime and the last one with "=", "<" or "<=" decides
    EndTime, each as its seconds times 1000 (exactly so while that
    product fits [int64]); ">" and ">=" send the same bound, as do "<"
    and "<="; without such a qualifier the bound is absent.  The
    qualifiers change nothing else of the request. *)
Theorem timestamp_bounds_last_qualifier_wins :
  forall iteration limit equalQuals (quals : gmap string (list Qual)),
    let input := filterLogEventsInput iteration limit equalQuals quals in
    let qs := default [] (quals !! "timestamp"%string) in
    StartTime input = timestampMs <$> last_with sets_start qs
    /\ EndTime input = timestampMs <$> last_with sets_end qs
    /\ input
       = {| LogGroupName :=
              LogGroupName (filterLogEventsInput iteration limit equalQuals ∅);
            Limit := Limit (filterLogEventsInput iteration limit equalQuals ∅);
            LogStreamNames :=
              LogStreamNames
                (filterLogEventsInput iteration limit equalQuals ∅);
            FilterPattern :=
              FilterPattern
                (filterLogEventsInput iteration limit equalQuals ∅);
            StartTime := StartTime input;
            EndTime := EndTime input;
            NextToken := None |}
    /\ (forall q s,
          Value q = Some (TimestampValue s) ->
          - 2 ^ 63 <= s * 1000 < 2 ^ 63 ->
          timestampMs q = s * 1000).
Proof.
  intros iteration limit equalQuals quals input qs. subst input qs.
  unfold filterLogEventsInput. rewrite lookup_empty.
  destruct (quals !! "timestamp"%string) as [qs|]; simpl.
  - match goal with
    | |- context [fold_left timestampQual qs ?i] =>
        destruct (timestampQuals_fields qs i)
          as (H1 & H2 & H3 & H4 & H5 & H6 & H7);
        destruct (fold_left timestampQual qs i) eqn:E
    end.
    simpl in *. subst.
    split; [|split; [|split]].
    + by destruct (last_with sets_start qs).
    + by destruct (last_with sets_end qs).
    + done.
    + intros q s Hq Hs. unfold timestampMs, int64. rewrite Hq. simpl.
      rewrite Z.mod_small; lia.
  - split; [done|split; [done|split; [done|]]].
    intros q s Hq Hs. unfold timestampMs, int64. rewrite Hq. simpl.
    rewrite Z.mod_small; lia.
Qed.

(** The expression [buildQueryFilter] adds for one entry of the map. *)
Local Abbreviation entry_filters equalQuals :=
  (fun entry : string * string =>
     match equalQuals !! entry.1 with
     | Some _ =>
         [filterExpression entry.2 (GetStringValue (equalQuals !! entry.1))]
     | None => []
     end).

Lemma buildQueryFilter_from (equalQuals : gmap string QualValue) iteration
    (filters : list string) :
  fold_left
    (fun (filters : list string) (entry : string * string) =>
       match equalQuals !! entry.1 with
       | Some _ =>
           filters ++
           [filterExpression entry.2 (GetStringValue (equalQuals !! entry.1))]
       | None => filters
       end) iteration filters
  = filters ++ flat_map (entry_filters equalQuals) iteration.
Proof.
  revert filters.
  induction iteration as [|entry iteration IH]; intros filters; simpl.
  - by rewrite app_nil_r.
  - rewrite IH. destruct (equalQuals !! entry.1); [|done].
    by rewrite <- app_assoc.
Qed.

Lemma buildQueryFilter_flat_map (equalQuals : gmap string QualValue)
    iteration :
  buildQueryFilter iteration equalQuals
  = flat_map (entry_filters equalQuals) iteration.
Proof. unfold buildQueryFilter. by rewrite buildQueryFilter_from. Qed.

Lemma flat_map_present (equalQuals : gmap string QualValue) l :
  flat_map (entry_filters equalQuals) l
  = map (fun entry =>
           filterExpression entry.2 (GetStringValue (equalQuals !! entry.1)))
      (List.filter
         (fun entry => bool_decide (is_Some (equalQuals !! entry.1))) l).
Proof.
  induction l as [|entry l IH]; simpl; [done|].
  destruct (equalQuals !! entry.1) as [v|] eqn:E; simpl; rewrite ?IH, ?E;
    done.
Qed.

Lemma filter_conjuncts_up_to_order_len iteration
    (equalQuals : gmap string QualValue) :
  Permutation iteration filterQuals ->
  length (buildQueryFilter iteration equalQuals)
  = length (filter_columns_present equalQuals).
Proof.
  intros Hperm. rewrite buildQueryFilter_flat_map.
  unfold filter_columns_present.
  rewrite (Permutation_length
             (Permutation_flat_map (entry_filters equalQuals) Hperm)).
  rewrite flat_map_present. apply length_map.
Qed.

(** X7.  Go's map order decides only the order of the conjuncts of the
    pattern: in every order [buildQueryFilter] returns, up to their
    order, one expression for each filter-key column that carries a
    predicate, hence at most eleven. *)
Theorem filter_conjuncts_up_to_order iteration
    (equalQuals : gmap string QualValue) :
  Permutation iteration filterQuals ->
  Permutation (buildQueryFilter iteration equalQuals)
    (map (fun entry =>
            filterExpression entry.2 (GetStringValue (equalQuals !! entry.1)))
       (filter_columns_present equalQuals))
  /\ length (buildQueryFilter iteration equalQuals)
     = length (filter_columns_present equalQuals)
  /\ (length (buildQueryFilter iteration equalQuals) <= 11)%nat.
Proof.
  intros Hperm.
  assert (H : Permutation (buildQueryFilter iteration equalQuals)
                (map (fun entry =>
                        filterExpression entry.2
                          (GetStringValue (equalQuals !! entry.1)))
                   (filter_columns_present equalQuals))).
  { rewrite buildQueryFilter_flat_map. unfold filter_columns_present.
    rewrite <- flat_map_present. by apply Permutation_flat_map. }
  split; [done|].
  assert (Hlen : length (buildQueryFilter iteration equalQuals)
                 = length (filter_columns_present equalQuals)).
  { rewrite (Permutation_length H). apply length_map. }
  split; [done|]. rewrite Hlen. unfold filter_columns_present.
  etransitivity; [apply List.filter_length_le|]. simpl. lia.
Qed.

Lemma filter_conjuncts_up_to_order_witness :
  Permutation
    (buildQueryFilter (rev filterQuals) Examples.trail_predicates)
    [filterExpression "eventName" "ConsoleLogin"].
Proof.
  destruct (filter_conjuncts_up_to_order (rev filterQuals)
              Examples.trail_predicates
              (Permutation_sym (Permutation_rev filterQuals)))
    as [H _].
  exact H.
Defined.

(** X8.  The FilterPattern of the request: a non-empty filter predicate is
    sent as it is and the predicates on the filter-key columns are then
    left out of the request; without it the pattern is the conjunction
    of the column expressions in braces; and there is no pattern when
    neither is present. *)
Theorem filter_pattern_precedence iteration limit
    (equalQuals : gmap string QualValue) (quals : gmap string (list Qual)) :
  Permutation iteration filterQuals ->
  let input := filterLogEventsInput iteration limit equalQuals quals in
  let queryFilter := GetStringValue (equalQuals !! "filter"%string) in
  (queryFilter <> EmptyString -> FilterPattern input = Some queryFilter)
  /\ (queryFilter = EmptyString ->
      filter_columns_present equalQuals <> [] ->
      FilterPattern input
      = Some ("{ " +:+ String.concat " && "
                         (buildQueryFilter iteration equalQuals)
              +:+ " }")%string)
  /\ (queryFilter = EmptyString ->
      filter_columns_present equalQuals = [] ->
      FilterPattern input = None).
Proof.
  intros Hperm input queryFilter.
  pose proof (filter_conjuncts_up_to_order_len iteration equalQuals Hperm)
    as Hlen.
  assert (Hpat : FilterPattern input
                 = if negb (queryFilter =? "")%string then Some queryFilter
                   else if (0 <? length (buildQueryFilter iteration
                                           equalQuals))%nat
                        then Some ("{ " +:+ String.concat " && "
                                     (buildQueryFilter iteration equalQuals)
                                   +:+ " }")%string
                        else None).
  { subst input queryFilter. unfold filterLogEventsInput.
    assert (Hq : match equalQuals !! "filter"%string with
                 | Some _ => GetStringValue (equalQuals !! "filter"%string)
                 | None => EmptyString
                 end = GetStringValue (equalQuals !! "filter"%string))
      by (by destruct (equalQuals !! "filter"%string)).
    rewrite Hq.
    destruct (quals !! "timestamp"%string) as [qs|]; [|done].
    match goal with
    | |- context [fold_left timestampQual qs ?i] =>
        destruct (timestampQuals_fields qs i) as (_ & _ & _ & -> & _)
    end.
    done. }
  rewrite Hpat. split; [|split].
  - intros Hne. apply String.eqb_neq in Hne. by rewrite Hne.
  - intros -> Hpresent. simpl. rewrite Hlen.
    destruct (filter_columns_present equalQuals); done.
  - intros -> Hpresent. simpl. by rewrite Hlen, Hpresent.
Qed.

Lemma filter_pattern_precedence_witness :
  FilterPattern
    (filterLogEventsInput filterQuals None CoverageExamples.filter_and_column
       Examples.trail_timestamps)
  = Some "{ $.errorCode = * }"%string.
Proof.
  destruct (filter_pattern_precedence filterQuals None
              CoverageExamples.filter_and_column Examples.trail_timestamps
              (Permutation_refl _)) as [H _].
  apply H. discriminate.
Defined.

(** X9.  [buildQueryFilter] reads only the string value of a predicate: a
    predicate on a filter-key column whose value is not a string, such
    as a boolean on read_only, is pushed down as a comparison with the
    empty string. *)
Theorem non_string_predicate_compares_with_empty iteration
    (equalQuals : gmap string QualValue) qual filterKey v :
  Permutation iteration filterQuals ->
  In (qual, filterKey) filterQuals ->
  equalQuals !! qual = Some v ->
  (forall s, v <> StringValue s) ->
  In (filterExpression filterKey EmptyString)
    (buildQueryFilter iteration equalQuals).
Proof.
  intros Hperm Hin Hv Hns. rewrite buildQueryFilter_flat_map.
  apply in_flat_map. exists (qual, filterKey). split.
  - eapply Permutation_in; [|exact Hin]. by apply Permutation_sym.
  - simpl. rewrite Hv. left. f_equal.
    destruct v; simpl; try done. by destruct (Hns s).
Qed.

Lemma non_string_predicate_compares_with_empty_witness :
  In ("( $.readOnly = " +:+ quote +:+ quote +:+ " )")%string
    (buildQueryFilter filterQuals CoverageExamples.read_only_predicate).
Proof.
  apply (non_string_predicate_compares_with_empty filterQuals
           CoverageExamples.read_only_predicate "read_only" "readOnly"
           (BoolValue true) (Permutation_refl _)).
  - simpl. tauto.
  - reflexivity.
  - discriminate.
Defined.

End TrailCoverage.


(** ** Get and hydrate functions, continued *)

Module GetCoverage.
Import Go Sdk TraceFacts PaginatorCoverage CallbackListCoverage ListFacts.
Import Instances Coverage.

Lemma append_inv_head (s a b : string) :
  (s +:+ a = s +:+ b)%string -> a = b.
Proof.
  induction s as [|c s IH]; simpl; [done|]. intros [= H]. auto.
Qed.

(** The request of the policy hydrate for a function and an alias. *)
Local Abbreviation policyInput fn name :=
  {| LambdaAlias.GetPolicyInput_FunctionName := Some fn;
     LambdaAlias.Qualifier := Some name |}.

Lemma getLambdaAliasPolicy_row r psvc ptr :
  match LambdaAlias.aliasRowData_FunctionName r,
        LambdaAlias.Alias r ≫= LambdaAlias.AliasName with
  | Some fn, Some name =>
      (LambdaAlias.getLambdaAliasPolicy r (Service psvc) ptr).1
      = ptr ++ [(policyInput fn name, psvc (policyInput fn name))]
      /\ (LambdaAlias.getLambdaAliasPolicy r (Service psvc) ptr).2 <> Panic
  | _, _ =>
      LambdaAlias.getLambdaAliasPolicy r (Service psvc) ptr = (ptr, Panic)
  end.
Proof.
  unfold LambdaAlias.getLambdaAliasPolicy.
  destruct (LambdaAlias.aliasRowData_FunctionName r) as [fn|]; [|done].
  destruct (LambdaAlias.Alias r) as [a|]; simpl; [|done].
  destruct (LambdaAlias.AliasName a) as [name|]; [|done].
  destruct (psvc (policyInput fn name)) as [op|[code msg|msg]]; try done.
  by destruct (code =? "ResourceNotFoundException")%string.
Qed.

(** X10.  The rows of aws_lambda_alias feed the policy hydrate from both row
    sources.  For a row streamed by listLambdaAliases,
    getLambdaAliasPolicy issues one GetPolicy call for the parent
    function qualified by the alias name and does not panic, and it
    panics without a call exactly when the function name or the alias
    name is nil.  A row returned by getLambdaAlias carries the
    function_name of the request and an alias, so the hydrate panics on
    it exactly when the alias name is nil. *)
Theorem alias_rows_feed_policy_hydrate :
  (forall function svc tr,
     exists new,
       (LambdaAlias.listLambdaAliases function (Service svc) tr).1
       = tr ++ new /\
       Forall
         (fun r =>
            LambdaAlias.aliasRowData_FunctionName r
            = LambdaAlias.FunctionName function /\
            forall psvc ptr,
              match LambdaAlias.FunctionName function,
                    LambdaAlias.Alias r ≫= LambdaAlias.AliasName with
              | Some fn, Some name =>
                  (LambdaAlias.getLambdaAliasPolicy r (Service psvc) ptr).1
                  = ptr ++ [(policyInput fn name, psvc (policyInput fn name))]
                  /\ (LambdaAlias.getLambdaAliasPolicy r (Service psvc) ptr).2
                     <> Panic
              | _, _ =>
                  LambdaAlias.getLambdaAliasPolicy r (Service psvc) ptr
                  = (ptr, Panic)
              end)
         (streamed new)) /\
  (forall matrixRegion KeyColumnQuals session tr r,
     (LambdaAlias.getLambdaAlias matrixRegion KeyColumnQuals session tr).2
     = Return (Some r) ->
     LambdaAlias.aliasRowData_FunctionName r
     = Some (GetStringValue (KeyColumnQuals !! "function_name"%string))
     /\ exists a,
          LambdaAlias.Alias r = Some a /\
          forall psvc ptr,
            LambdaAlias.getLambdaAliasPolicy r (Service psvc) ptr
            = (ptr, Panic) <->
            LambdaAlias.AliasName a = None).
Proof.
  split.
  - intros function svc tr. simpl.
    destruct (ListAliasesPages_all function svc None tr)
      as (new & -> & _ & Hs & _).
    exists new. split; [by destruct (provider_failure svc)|].
    rewrite Hs. apply Forall_map, Forall_forall. intros alias _.
    split; [done|]. intros psvc ptr.
    pose proof (getLambdaAliasPolicy_row
                  {| LambdaAlias.Alias := Some alias;
                     LambdaAlias.aliasRowData_FunctionName :=
                       LambdaAlias.FunctionName function |} psvc ptr) as H.
    exact H.
  - intros matrixRegion quals session tr r.
    unfold LambdaAlias.getLambdaAlias.
    destruct (_ || _ || _)%bool; [discriminate|].
    destruct session as [err|svc]; [discriminate|].
    destruct (svc _) as [rowData|err]; simpl; [|discriminate].
    intros [= <-]. simpl. split; [done|]. exists rowData. split; [done|].
    intros psvc ptr.
    pose proof (getLambdaAliasPolicy_row
                  {| LambdaAlias.Alias := Some rowData;
                     LambdaAlias.aliasRowData_FunctionName :=
                       Some (GetStringValue
                               (quals !! "function_name"%string)) |}
                  psvc ptr) as H.
    simpl in H. destruct (LambdaAlias.AliasName rowData) as [name|].
    + destruct H as [_ H]. split; [|discriminate].
      intros Heq. rewrite Heq in H. by destruct H.
    + by split.
Qed.

(** X11.  getLambdaAlias issues at most one provider call, and issues one
    exactly when name and function_name are non-empty, the region key
    equals the matrix region and the session resolves; the call asks for
    that function and alias name.  The function fails only with the error
    of the session or of the call. *)
Theorem lambda_alias_get_calls_once_when_keyed :
  forall matrixRegion (KeyColumnQuals : gmap string QualValue) session tr,
    let name := GetStringValue (KeyColumnQuals !! "name"%string) in
    let functionName :=
      GetStringValue (KeyColumnQuals !! "function_name"%string) in
    let region := GetStringValue (KeyColumnQuals !! "region"%string) in
    let run :=
      LambdaAlias.getLambdaAlias matrixRegion KeyColumnQuals session tr in
    exists cs,
      run.1 = tr ++ cs /\
      (length cs <= 1)%nat /\
      (cs <> [] <->
       name <> EmptyString /\ functionName <> EmptyString /\
       region = matrixRegion /\ exists svc, session = Service svc) /\
      Forall (fun c =>
                c.1 = {| LambdaAlias.GetAliasInput_FunctionName :=
                           Some functionName;
                         LambdaAlias.GetAliasInput_Name := Some name |})
        cs /\
      (forall err, run.2 = Fail err ->
         session = ServiceError err \/
         exists req, In (req, LambdaAlias.CallErr err) cs).
Proof.
  intros matrixRegion quals session tr name functionName region run.
  subst run. unfold LambdaAlias.getLambdaAlias. fold name functionName region.
  destruct (String.eqb_spec name "") as [Hn|Hn]; simpl.
  { exists []. rewrite app_nil_r. repeat split; try done; [simpl; lia|].
    by intros (? & _). }
  destruct (String.eqb_spec functionName "") as [Hf|Hf]; simpl.
  { exists []. rewrite app_nil_r. repeat split; try done; [simpl; lia|].
    by intros (_ & ? & _). }
  destruct (String.eqb_spec region matrixRegion) as [Hr|Hr]; simpl.
  2:{ exists []. rewrite app_nil_r. repeat split; try done; [simpl; lia|].
      by intros (_ & _ & ? & _). }
  destruct session as [err|svc].
  { exists []. rewrite app_nil_r. repeat split; try done; [simpl; lia| |].
    - by intros (_ & _ & _ & ? & ?).
    - intros err' [= <-]. by left. }
  set (params := {| LambdaAlias.GetAliasInput_FunctionName := Some functionName;
                    LambdaAlias.GetAliasInput_Name := Some name |}).
  exists [(params, svc params)].
  split; [by destruct (svc params)|].
  split; [simpl; lia|]. split.
  - split; [|done]. intros _. repeat split; try done. by exists svc.
  - split; [by repeat constructor|].
    intros err. destruct (svc params) as [a|err'] eqn:E; simpl;
      [discriminate|].
    intros [= <-]. right. exists params. by left.
Qed.

(** X12.  The ARN hydrate of aws_api_gatewayv2_route on the two row sources.
    For a row streamed by listAPIGatewayV2Routes it returns the ARN of
    the parent API and of the route id of the fetched route, and panics
    when that route id is nil.  A row returned by getAPIGatewayV2Route
    carries the api_id of the request but is a struct value, on which
    the hydrate's assertion to a pointer panics.  For one partition,
    region and API, routes with different ids get different ARNs. *)
Theorem route_arn_of_list_and_get_rows :
  (forall RowsRemaining Limit api client tr region c,
     exists new,
       (APIGatewayV2Route.listAPIGatewayV2Routes RowsRemaining Limit api
          client tr).1 = tr ++ new /\
       Forall
         (fun r =>
            exists route,
              In route (fetched new) /\
              APIGatewayV2Route.ApiId api
              = Some (APIGatewayV2Route.RouteInfo_ApiId r) /\
              getAPIGatewayV2RouteARN (PointerRouteInfo r) region (Return c)
              = match APIGatewayV2Route.Route_RouteId route with
                | Some routeId =>
                    Return (routeArn c region
                              (APIGatewayV2Route.RouteInfo_ApiId r) routeId)
                | None => Panic
                end)
         (streamed new)) /\
  (forall EqualsQuals client tr r,
     (APIGatewayV2Route.getAPIGatewayV2Route EqualsQuals client tr).2
     = Return (Some r) ->
     APIGatewayV2Route.RouteInfo_ApiId r
     = GetStringValue (EqualsQuals !! "api_id"%string)
     /\ forall region c,
          getAPIGatewayV2RouteARN (ValueRouteInfo r) region c = Panic) /\
  (forall c region apiId id1 id2,
     routeArn c region apiId id1 = routeArn c region apiId id2 -> id1 = id2).
Proof.
  split; [|split].
  - intros RR Limit api client tr region c.
    unfold APIGatewayV2Route.listAPIGatewayV2Routes.
    destruct client as [err| |svc]; simpl;
      [exists []; split; [by rewrite app_nil_r | constructor] ..|].
    rewrite getRoutesPages_paginator.
    destruct (Paginator.paginate _ _ _ _ _ _ _) as [tr' res] eqn:E.
    apply paginate_prefix in E as (new & rest & -> & Hrows).
    exists new. split; [done|].
    apply Forall_forall. intros r Hr.
    assert (Hin : In (Some r) (map (routeRow api) (fetched new))).
    { rewrite Hrows. apply in_or_app. left. apply in_map.
      by apply list_elem_of_In. }
    apply in_map_iff in Hin as (route & Hrow & Hroute).
    exists route. split; [done|].
    unfold routeRow in Hrow.
    destruct (APIGatewayV2Route.ApiId api) as [id|]; [|discriminate].
    injection Hrow as <-. simpl. split; [done|].
    by destruct (APIGatewayV2Route.Route_RouteId route).
  - intros quals client tr r.
    unfold APIGatewayV2Route.getAPIGatewayV2Route.
    destruct client as [err| |svc]; simpl; try discriminate.
    destruct (svc _) as [[item|]|err]; simpl; try discriminate.
    by intros [= <-].
  - intros c region apiId id1 id2 H. unfold routeArn in H.
    repeat apply append_inv_head in H. done.
Qed.

(** X13.  The ARN hydrate of aws_cloudfront_origin_access_identity depends on
    the row item through its identity id only: it panics exactly on an
    item without one (given common columns), and otherwise returns the
    error of getCommonColumns or the ARN of that id, so that the list row
    and the Get output of one identity get the same ARN; different ids
    get different ARNs. *)
Theorem identity_arn_depends_on_id_only :
  (forall item c,
     CloudFrontOriginAccessIdentity.getCloudFrontOriginAccessIdentityARN
       item c
     = match identityId item, c with
       | None, _ => Panic
       | Some id, Return cc => Return (identityArn cc id)
       | Some _, Fail err => Fail err
       | Some _, Panic => Panic
       end) /\
  (forall s o oai cc,
     CloudFrontOriginAccessIdentity.CloudFrontOriginAccessIdentity o
     = Some oai ->
     CloudFrontOriginAccessIdentity.OriginAccessIdentity_Id oai
     = CloudFrontOriginAccessIdentity.Id s ->
     CloudFrontOriginAccessIdentity.getCloudFrontOriginAccessIdentityARN
       (CloudFrontOriginAccessIdentity.OutputItem o) (Return cc)
     = CloudFrontOriginAccessIdentity.getCloudFrontOriginAccessIdentityARN
         (CloudFrontOriginAccessIdentity.SummaryItem s) (Return cc)) /\
  (forall cc id1 id2, identityArn cc id1 = identityArn cc id2 -> id1 = id2).
Proof.
  assert (H : forall item c,
            CloudFrontOriginAccessIdentity.getCloudFrontOriginAccessIdentityARN
              item c
            = match identityId item, c with
              | None, _ => Panic
              | Some id, Return cc => Return (identityArn cc id)
              | Some _, Fail err => Fail err
              | Some _, Panic => Panic
              end).
  { intros item c.
    unfold CloudFrontOriginAccessIdentity.getCloudFrontOriginAccessIdentityARN.
    destruct item as [o|s|]; simpl; [| |done].
    - destruct (CloudFrontOriginAccessIdentity.CloudFrontOriginAccessIdentity
                  o) as [oai|]; [|done].
      destruct (CloudFrontOriginAccessIdentity.OriginAccessIdentity_Id oai);
        [|done].
      by destruct c.
    - destruct (CloudFrontOriginAccessIdentity.Id s); [|done]. by destruct c. }
  split; [exact H|]. split.
  - intros s o oai cc Ho Hid. rewrite !H. simpl. by rewrite Ho, Hid.
  - intros cc id1 id2 Heq. unfold identityArn in Heq.
    repeat apply append_inv_head in Heq. done.
Qed.

(** X14.  The Get function of aws_cloudfront_origin_access_identity as a
    hydrate and as a Get.  On a row streamed by the list function it
    calls the provider with the id of that row, whatever the key
    qualifiers are, and panics without a call when the id is nil; without
    a row item it calls the provider with the string value of the id
    qualifier, also when that is missing or empty.  The call's error is
    returned, and its output becomes the item. *)
Theorem identity_get_uses_row_id_or_key :
  (forall svc tr,
     exists new,
       (CloudFrontOriginAccessIdentity.listCloudFrontOriginAccessIdentities
          (Service svc) tr).1 = tr ++ new /\
       Forall
         (fun r =>
            forall KeyColumnQuals gsvc gtr,
              CloudFrontOriginAccessIdentity.getCloudFrontOriginAccessIdentity
                (Some r) KeyColumnQuals (Service gsvc) gtr
              = match identityId r with
                | Some id =>
                    (gtr ++ [(Some id, gsvc (Some id))],
                     match gsvc (Some id) with
                     | LambdaAlias.CallErr err => Fail err
                     | LambdaAlias.CallOk op =>
                         Return (CloudFrontOriginAccessIdentity.OutputItem op)
                     end)
                | None => (gtr, Panic)
                end)
         (streamed new)) /\
  (forall (KeyColumnQuals : gmap string QualValue) gsvc gtr,
     let id := GetStringValue (KeyColumnQuals !! "id"%string) in
     CloudFrontOriginAccessIdentity.getCloudFrontOriginAccessIdentity
       None KeyColumnQuals (Service gsvc) gtr
     = (gtr ++ [(Some id, gsvc (Some id))],
        match gsvc (Some id) with
        | LambdaAlias.CallErr err => Fail err
        | LambdaAlias.CallOk op =>
            Return (CloudFrontOriginAccessIdentity.OutputItem op)
        end)).
Proof.
  split.
  - intros svc tr. simpl.
    destruct (ListIdentitiesPages_rows svc tr)
      as (new & identities & Hnew & Hs).
    exists new. split.
    { rewrite <- Hnew.
      by destruct (CloudFrontOriginAccessIdentity.ListCloudFrontOriginAccessIdentitiesPages
                     svc tr) as [tr' [[]|err|]]. }
    rewrite Hs. apply Forall_map, Forall_forall. intros s _ quals gsvc gtr.
    simpl. destruct (CloudFrontOriginAccessIdentity.Id s) as [id|]; [|done].
    by destruct (gsvc (Some id)).
  - intros quals gsvc gtr id. simpl. fold id. by destruct (gsvc (Some id)).
Qed.

End GetCoverage.
